(** * RafilisAN desktop shell: the processing-session state machine

    A shallow embedding of the session logic of [src/src/App.tsx]: the
    per-file status table and its three writers ([startProcessing],
    [stopProcessing], [pollForUpdates]), the trial-quota branches of the
    [files-selected] and [file-dropped] IPC handlers, and the
    license-activation attempt counter with its lockout.

    Conventions of the embedding.
    - A React state variable is a field of a record; a setter call is a
      record update.  A handler is a function from the state at the time it
      runs to the state after all of its setter calls have been applied.
    - An [await]ed HTTP call is an extra argument giving how the call
      settled (a response body, or a thrown transport error).
    - JavaScript numbers are rationals ([Q]); [undefined] is [None].
      Time stamps ([Date.now()]) and counters are integers ([Z]).
    - A string is its sequence of code units, each below 256. *)

From Stdlib Require Import ZArith QArith Bool List String Ascii Lia.
From stdpp Require Import base option list gmap strings pretty.
Import ListNotations.

Local Open Scope string_scope.
Local Open Scope list_scope.
Local Open Scope Z_scope.

(** ** Data model *)

(** The string-literal union of [AudioFile.status]. *)
Inductive Status : Type :=
| pending | analyzing | analyzed | processing | finalizing
| normalized | completed | stopped | error.

#[global] Instance Status_eq_dec : EqDecision Status.
Proof. solve_decision. Defined.

Definition Status_eqb (a b : Status) : bool := bool_decide (a = b).

(** [interface AudioFile] *)
Record AudioFile : Type := mkAudioFile {
  name : string;
  path : string;
  status : Status;
  currentLUFS : option Q;
  newLUFS : option Q;
  progress : option Q
}.

(** JavaScript truthiness of an optional number: [undefined] and [0] are
    falsy. *)
Definition truthyNum (x : option Q) : bool :=
  match x with
  | Some q => negb (Qeq_bool q 0)
  | None => false
  end.

(** [a || b] on optional numbers. *)
Definition orNum (a b : option Q) : option Q :=
  if truthyNum a then a else b.

(** [a || 0] on an optional number. *)
Definition orZero (a : option Q) : Q :=
  match a with
  | Some q => if Qeq_bool q 0 then 0%Q else q
  | None => 0%Q
  end.

(** ** The stop rule ([stopProcessing], the callback of [setAudioFiles]) *)

Definition stopRule (file : AudioFile) : AudioFile :=
  match status file with
  | completed | normalized => file
  | _ =>
      {| name := name file;
         path := path file;
         status := stopped;
         progress := Some 0%Q;
         currentLUFS := currentLUFS file;
         newLUFS := None |}
  end.

(** The reset of [startProcessing]. *)
Definition resetRule (file : AudioFile) : AudioFile :=
  {| name := name file;
     path := path file;
     status := pending;
     progress := Some 0%Q;
     currentLUFS := None;
     newLUFS := None |}.

(** ** Backend progress snapshot (the body of [GET /progress]) *)

Module Processed.
(** One element of [data.processedFiles]. *)
Record t : Type := mk { name : string; currentLUFS : option Q }.
End Processed.

Module Current.
(** One element of [data.currentFiles]. *)
Record t : Type := mk { currentLUFS : option Q }.
End Current.

Module Progress.
(** The fields of the response that [pollForUpdates] reads.  An absent
    array is the empty list and an absent [fileStatuses] the empty map,
    as the [|| []] and [|| {}] defaults of the source make them. *)
Record t : Type := mk {
  isProcessing : bool;
  processedFiles : list Processed.t;
  fileProgress : list Q;
  fileStatuses : gmap string string;
  currentFiles : list (option Current.t)
}.
End Progress.

(** [data.processedFiles.find(pf => pf.name === file.name)] *)
Definition findProcessed (pfs : list Processed.t) (n : string) : option Processed.t :=
  List.find (fun pf => String.eqb (Processed.name pf) n) pfs.

(** The two run-ended updates of [pollForUpdates]. *)
Definition finishWithResults (targetLUFS : Q) (pfs : list Processed.t)
    (file : AudioFile) : AudioFile :=
  let processedFile := findProcessed pfs (name file) in
  {| name := name file;
     path := path file;
     status := completed;
     progress := Some 1%Q;
     currentLUFS :=
       Some (orZero (orNum (processedFile ≫= Processed.currentLUFS) (currentLUFS file)));
     newLUFS := Some targetLUFS |}.

Definition finishFallback (targetLUFS : Q) (file : AudioFile) : AudioFile :=
  {| name := name file;
     path := path file;
     status := completed;
     progress := Some 1%Q;
     currentLUFS := Some (orZero (currentLUFS file));
     newLUFS := Some targetLUFS |}.

(** [fileProgressArray[index] || 0] *)
Definition progressAt (fileProgressArray : list Q) (index : nat) : Q :=
  match fileProgressArray !! index with
  | Some p => if Qeq_bool p 0 then 0%Q else p
  | None => 0%Q
  end.

(** [fileStatuses[index.toString()] || 'pending'] *)
Definition statusTokenAt (fileStatuses : gmap string string) (index : nat) : string :=
  match fileStatuses !! (pretty index) with
  | Some tok => if String.eqb tok "" then "pending" else tok
  | None => "pending"
  end.

(** [currentFileData?.currentLUFS || file.currentLUFS] *)
Definition realCurrentLUFSAt (currentFiles : list (option Current.t))
    (index : nat) (file : AudioFile) : option Q :=
  orNum (mjoin (currentFiles !! index) ≫= Current.currentLUFS) (currentLUFS file).

(** The [switch (fileStatus)] of the per-file mapping. *)
Definition mapStatus (stillProcessing : bool) (fileStatus : string)
    (fileProgress : Q) (realCurrentLUFS : option Q) : Status :=
  if String.eqb fileStatus "Analyzing" then analyzing
  else if String.eqb fileStatus "Normalizing" then
    if Qle_bool (95 # 100) fileProgress then finalizing else processing
  else if String.eqb fileStatus "completed" then completed
  else if String.eqb fileStatus "error" then error
  else if truthyNum realCurrentLUFS then
    if Qle_bool 1 fileProgress && negb stillProcessing then normalized
    else if String.eqb fileStatus "Normalizing" || negb (Qle_bool fileProgress (5 # 10)) then
      if Qle_bool (95 # 100) fileProgress then finalizing else processing
    else analyzed
  else if negb (Qle_bool fileProgress 0) then analyzing else pending.

(** [mappedStatus === 'finalizing' || ... 'normalized' || ... 'completed'] *)
Definition carriesTarget (s : Status) : bool :=
  match s with
  | finalizing | normalized | completed => true
  | _ => false
  end.

(** The callback of [prev.map((file, index) => ...)] for a snapshot with
    [isProcessing] true. *)
Definition pollFile (targetLUFS : Q) (data : Progress.t)
    (index : nat) (file : AudioFile) : AudioFile :=
  let fileProgress := progressAt (Progress.fileProgress data) index in
  let fileStatus := statusTokenAt (Progress.fileStatuses data) index in
  let realCurrentLUFS := realCurrentLUFSAt (Progress.currentFiles data) index file in
  let mappedStatus :=
    mapStatus (Progress.isProcessing data) fileStatus fileProgress realCurrentLUFS in
  {| name := name file;
     path := path file;
     status := mappedStatus;
     progress := Some fileProgress;
     currentLUFS := realCurrentLUFS;
     newLUFS := if carriesTarget mappedStatus then Some targetLUFS else newLUFS file |}.

(** The file-list update of one settled [GET /progress]. *)
Definition pollFiles (targetLUFS : Q) (data : Progress.t)
    (prev : list AudioFile) : list AudioFile :=
  if negb (Progress.isProcessing data) then
    match Progress.processedFiles data with
    | _ :: _ => List.map (finishWithResults targetLUFS (Progress.processedFiles data)) prev
    | [] => List.map (finishFallback targetLUFS) prev
    end
  else imap (pollFile targetLUFS data) prev.

(** ** License snapshot and the application state *)

Module License.
(** [interface LicenseInfo], the fields the session logic reads. *)
Record t : Type := mk {
  status : string;
  license_key : string;
  trial_usage : Z;
  max_trial_usage : Z;
  remaining_trial_files : Z;
  can_process_more : bool
}.
End License.

(** The [alert(...)] calls of the session logic, by kind and arguments. *)
Inductive Alert : Type :=
| AlertTrialLimit (offered availableSlots added : Z)
| AlertQuotaExhausted (remaining : Z)
| AlertAddFilesFirst.

(** The state variables and refs of [App] that the session logic touches.
    [pollers] lists the pending [pollForUpdates] closures, one per
    [startProcessing] call whose loop has not returned: each has its fetch
    in flight or its timer armed through [pollingTimeoutRef], and is
    represented by the [targetLUFS] it captured when it was created.
    Nothing but a closure's own return removes it here; that a closure
    re-arming its timer clears whatever timer [pollingTimeoutRef] holds,
    possibly another closure's, is left out, so the model lets such a
    closure go on. *)
Record App : Type := mkApp {
  audioFiles : list AudioFile;
  targetLUFS : Q;
  isProcessing : bool;
  shouldStopPolling : bool;
  licenseInfo : option License.t;
  remainingTrialFiles : Z;
  maxSelectableFiles : Z;
  showUpgradeModal : bool;
  showTrialExpired : bool;
  audioFilesRef : list AudioFile;
  licenseInfoRef : option License.t;
  remainingTrialFilesRef : Z;
  pollers : list Q;
  alerts : list Alert
}.

(** The initial values of the [useState] and [useRef] calls. *)
Definition initialApp : App :=
  {| audioFiles := []; targetLUFS := (-12)%Q; isProcessing := false;
     shouldStopPolling := false; licenseInfo := None;
     remainingTrialFiles := 10; maxSelectableFiles := 10;
     showUpgradeModal := false; showTrialExpired := false;
     audioFilesRef := []; licenseInfoRef := None; remainingTrialFilesRef := 10;
     pollers := []; alerts := [] |}.

Definition setAudioFiles (f : list AudioFile -> list AudioFile) (st : App) : App :=
  let (a, t, p, sp, li, r, m, um, te, ar, lr, rr, po, al) := st in
  mkApp (f a) t p sp li r m um te ar lr rr po al.

Definition setTargetLUFS (v : Q) (st : App) : App :=
  let (a, t, p, sp, li, r, m, um, te, ar, lr, rr, po, al) := st in
  mkApp a v p sp li r m um te ar lr rr po al.

Definition setIsProcessing (v : bool) (st : App) : App :=
  let (a, t, p, sp, li, r, m, um, te, ar, lr, rr, po, al) := st in
  mkApp a t v sp li r m um te ar lr rr po al.

Definition setShouldStopPolling (v : bool) (st : App) : App :=
  let (a, t, p, sp, li, r, m, um, te, ar, lr, rr, po, al) := st in
  mkApp a t p v li r m um te ar lr rr po al.

Definition setLicenseInfo (v : option License.t) (st : App) : App :=
  let (a, t, p, sp, li, r, m, um, te, ar, lr, rr, po, al) := st in
  mkApp a t p sp v r m um te ar lr rr po al.

Definition setRemainingTrialFiles (v : Z) (st : App) : App :=
  let (a, t, p, sp, li, r, m, um, te, ar, lr, rr, po, al) := st in
  mkApp a t p sp li v m um te ar lr rr po al.

Definition setMaxSelectableFiles (v : Z) (st : App) : App :=
  let (a, t, p, sp, li, r, m, um, te, ar, lr, rr, po, al) := st in
  mkApp a t p sp li r v um te ar lr rr po al.

Definition setShowUpgradeModal (v : bool) (st : App) : App :=
  let (a, t, p, sp, li, r, m, um, te, ar, lr, rr, po, al) := st in
  mkApp a t p sp li r m v te ar lr rr po al.

Definition setShowTrialExpired (v : bool) (st : App) : App :=
  let (a, t, p, sp, li, r, m, um, te, ar, lr, rr, po, al) := st in
  mkApp a t p sp li r m um v ar lr rr po al.

Definition setPollers (v : list Q) (st : App) : App :=
  let (a, t, p, sp, li, r, m, um, te, ar, lr, rr, po, al) := st in
  mkApp a t p sp li r m um te ar lr rr v al.

Definition alert (v : Alert) (st : App) : App :=
  let (a, t, p, sp, li, r, m, um, te, ar, lr, rr, po, al) := st in
  mkApp a t p sp li r m um te ar lr rr po (al ++ [v]).

(** The three [useEffect]s that copy state into the refs after a render. *)
Definition syncRefs (st : App) : App :=
  let (a, t, p, sp, li, r, m, um, te, ar, lr, rr, po, al) := st in
  mkApp a t p sp li r m um te a li r po al.

(** ** Quota guard: the [files-selected] and [file-dropped] handlers *)

(** [info && info.status && info.status.startsWith('Trial')] *)
Definition isTrial (info : option License.t) : bool :=
  match info with
  | Some license =>
      negb (String.eqb (License.status license) "")
      && String.prefix "Trial" (License.status license)
  | None => false
  end.

(** [filePath.split('/').pop()]: the text after the last slash. *)
Fixpoint lastSegment (cur s : string) : string :=
  match s with
  | EmptyString => cur
  | String c rest =>
      if Ascii.eqb c "/" then lastSegment EmptyString rest
      else lastSegment (cur ++ String c EmptyString) rest
  end.

(** [filePath.split('/').pop() || filePath] *)
Definition fileNameOf (filePath : string) : string :=
  let last := lastSegment EmptyString filePath in
  if String.eqb last "" then filePath else last.

Definition newFile (filePath : string) : AudioFile :=
  {| name := fileNameOf filePath;
     path := filePath;
     status := pending;
     currentLUFS := None;
     newLUFS := None;
     progress := None |}.

(** [Math.max(0, remainingTrialFilesRef.current - currentCount)] *)
Definition availableSlots (st : App) : Z :=
  Z.max 0 (remainingTrialFilesRef st - Z.of_nat (length (audioFilesRef st))).

Definition filesSelected (filePaths : list string) (st : App) : App :=
  let append finalFilePaths :=
    setAudioFiles (fun prev => prev ++ List.map newFile finalFilePaths) in
  if isTrial (licenseInfoRef st) then
    if availableSlots st <? Z.of_nat (length filePaths) then
      let finalFilePaths := take (Z.to_nat (availableSlots st)) filePaths in
      if 0 <? availableSlots st then
        append finalFilePaths
          (alert (AlertTrialLimit (Z.of_nat (length filePaths)) (availableSlots st)
                    (Z.of_nat (length finalFilePaths))) st)
      else
        setShowUpgradeModal true
          (alert (AlertQuotaExhausted (remainingTrialFilesRef st)) st)
    else append filePaths st
  else append filePaths st.

Definition fileDropped (filePath : string) (st : App) : App :=
  if isTrial (licenseInfoRef st) && (availableSlots st <=? 0) then
    setShowUpgradeModal true
      (alert (AlertQuotaExhausted (remainingTrialFilesRef st)) st)
  else setAudioFiles (fun prev => prev ++ [newFile filePath]) st.

(** How [GET /license/status] settled. *)
Inductive LicenseReply : Type :=
| LicenseOk (license : License.t)
| LicenseNotSuccess
| LicenseThrew.

(** [fetchLicenseInfo]; on an integer, [license.remaining_trial_files || 0]
    is the integer itself. *)
Definition fetchLicenseInfo (reply : LicenseReply) (st : App) : App :=
  match reply with
  | LicenseOk license =>
      let st1 := setLicenseInfo (Some license) st in
      let st2 :=
        if isTrial (Some license) then
          let remaining := License.remaining_trial_files license in
          setMaxSelectableFiles remaining (setRemainingTrialFiles remaining st1)
        else setMaxSelectableFiles 999 (setRemainingTrialFiles 999 st1) in
      if String.eqb (License.status license) "Trial Expired"
         && (License.remaining_trial_files license <=? 0)
      then setShowTrialExpired true st2 else st2
  | LicenseNotSuccess => st
  | LicenseThrew => setLicenseInfo None st
  end.

(** ** Session controller and progress poller *)

(** How [POST /stop] settled: a response body with its [success] field, or
    a thrown error (transport failure, or a status axios rejects). *)
Inductive StopReply : Type :=
| StopResponse (success : bool)
| StopThrew.

(** [stopProcessing] up to its [await]. *)
Definition stopRequested (st : App) : App :=
  setIsProcessing false (setShouldStopPolling true st).

(** [stopProcessing] after its [await]: the rest of the [try] block, or the
    [catch] block. *)
Definition stopSettled (reply : StopReply) (st : App) : App :=
  match reply with
  | StopResponse _ => setAudioFiles (List.map stopRule) st
  | StopThrew => setIsProcessing false (setShouldStopPolling true st)
  end.

Definition stopProcessing (reply : StopReply) (st : App) : App :=
  stopSettled reply (stopRequested st).

(** How [GET /progress] settled. *)
Inductive ProgressReply : Type :=
| ProgressResponse (data : Progress.t)
| ProgressThrew.

(** One invocation of [pollForUpdates], the closure at position [k] of
    [pollers], which captured [target]: the state updates of the response,
    and whether the closure re-arms its timer (250 ms after a snapshot of
    a live run, 1000 ms after an error) and so stays pending, or returns
    for good. *)
Definition pollForUpdates (k : nat) (target : Q) (reply : ProgressReply)
    (st : App) : App :=
  match reply with
  | ProgressResponse data =>
      let st1 := setAudioFiles (pollFiles target data) st in
      if Progress.isProcessing data then st1
      else setPollers (delete k (pollers st)) (setIsProcessing false st1)
  | ProgressThrew => st
  end.

(** How [POST /process] settled; the response body is only logged. *)
Inductive ProcessReply : Type :=
| ProcessResponse
| ProcessThrew.

Definition startProcessing (reply : ProcessReply) (st : App) : App :=
  match audioFiles st with
  | [] => alert AlertAddFilesFirst st
  | _ :: _ =>
      let st1 :=
        setAudioFiles (List.map resetRule)
          (setIsProcessing true (setShouldStopPolling false st)) in
      match reply with
      | ProcessResponse => setPollers (pollers st ++ [targetLUFS st]) st1
      | ProcessThrew => setIsProcessing false st1
      end
  end.

(** [clearFiles] *)
Definition clearFiles (st : App) : App := setAudioFiles (fun _ => []) st.

(** What can happen between two renders while a run is under way. *)
Inductive Event : Type :=
| PollSettled (k : nat) (reply : ProgressReply)
| StopClicked (reply : StopReply)
| FilesSelected (filePaths : list string)
| FileDropped (filePath : string)
| FilesCleared
| LicenseFetched (reply : LicenseReply)
| TargetChosen (v : Q)
| Rendered.

Definition step (ev : Event) (st : App) : App :=
  match ev with
  | PollSettled k reply =>
      match pollers st !! k with
      | Some target => pollForUpdates k target reply st
      | None => st
      end
  | StopClicked reply => stopProcessing reply st
  | FilesSelected filePaths => filesSelected filePaths st
  | FileDropped filePath => fileDropped filePath st
  | FilesCleared => clearFiles st
  | LicenseFetched reply => fetchLicenseInfo reply st
  | TargetChosen v => setTargetLUFS v st
  | Rendered => syncRefs st
  end.

Definition run (evs : list Event) (st : App) : App :=
  fold_left (fun s ev => step ev s) evs st.

(** ** License activation protocol *)

(** [isValidLicenseKeyFormat] *)
Definition isValidLicenseKeyFormat (key : string) : bool :=
  String.prefix "RAFILIS-" key && (20 <=? Z.of_nat (String.length key)).

(** White space of [String.prototype.trim] among the Latin-1 code units. *)
Definition isSpace (c : ascii) : bool :=
  let n := nat_of_ascii c in
  ((9 <=? n) && (n <=? 13) || (n =? 32) || (n =? 160))%nat.

Fixpoint trimStart (s : string) : string :=
  match s with
  | String c rest => if isSpace c then trimStart rest else s
  | EmptyString => EmptyString
  end.

Definition trim (s : string) : string :=
  String.rev (trimStart (String.rev (trimStart s))).

Module Activation.

(** The license-activation state variables of [App]. *)
Record t : Type := mk {
  licenseKey : string;
  isActivating : bool;
  activationError : string;
  lastActivationAttempt : Z;
  activationAttempts : Z;
  lockoutUntil : Z;
  lockoutCountdown : Z
}.

Definition initial : t := mk "" false "" 0 0 0 0.

Definition setLicenseKey (v : string) (st : t) : t :=
  let (k, ia, e, la, n, lu, lc) := st in mk v ia e la n lu lc.
Definition setIsActivating (v : bool) (st : t) : t :=
  let (k, ia, e, la, n, lu, lc) := st in mk k v e la n lu lc.
Definition setActivationError (v : string) (st : t) : t :=
  let (k, ia, e, la, n, lu, lc) := st in mk k ia v la n lu lc.
Definition setLastActivationAttempt (v : Z) (st : t) : t :=
  let (k, ia, e, la, n, lu, lc) := st in mk k ia e v n lu lc.
Definition setActivationAttempts (v : Z) (st : t) : t :=
  let (k, ia, e, la, n, lu, lc) := st in mk k ia e la v lu lc.
Definition setLockoutUntil (v : Z) (st : t) : t :=
  let (k, ia, e, la, n, lu, lc) := st in mk k ia e la n v lc.
Definition setLockoutCountdown (v : Z) (st : t) : t :=
  let (k, ia, e, la, n, lu, lc) := st in mk k ia e la n lu v.

(** [canAttemptActivation], with [now] the value of [Date.now()]: the
    boolean it returns and the state after its setter calls. *)
Definition canAttemptActivation (now : Z) (st : t) : bool * t :=
  if now <? lockoutUntil st then (false, st)
  else if (lockoutUntil st <=? now) && (3 <=? activationAttempts st)
       then (true, setLockoutUntil 0 (setActivationAttempts 0 st))
       else (true, st).

(** The interval callback of the lockout countdown effect, which runs
    while [lockoutUntil > 0]. *)
Definition countdownTick (now : Z) (st : t) : t :=
  if 0 <? lockoutUntil st then
    let remaining := Z.max 0 (- ((- (lockoutUntil st - now)) / 1000)) in
    let st1 := setLockoutCountdown remaining st in
    if remaining =? 0
    then setActivationError "" (setActivationAttempts 0 (setLockoutUntil 0 st1))
    else st1
  else st.

(** What [axios.post] threw, as the [catch] block classifies it. *)
Inductive Thrown : Type :=
| AxiosNetworkError
| AxiosStatus400
| AxiosOther
| NotAxios.

(** How [POST /license/activate] settled. *)
Inductive Reply : Type :=
| Response (success : bool) (serverError : option string)
| Threw (e : Thrown).

(** What [activateLicense] does besides setting state. *)
Inductive Effect : Type :=
| PostActivate (licenseKey : string)
| AlertActivated
| RefreshLicenseInfo
| CloseModals.

Definition thrownMessage (e : Thrown) : string :=
  match e with
  | AxiosNetworkError => "Network error. Please check your connection"
  | AxiosStatus400 => "Invalid license key"
  | AxiosOther => "Server error. Please try again later"
  | NotAxios => "Activation failed. Please try again"
  end.

(** [response.data.error || 'Activation failed'] *)
Definition rejectionMessage (serverError : option string) : string :=
  match serverError with
  | Some m => if String.eqb m "" then "Activation failed" else m
  | None => "Activation failed"
  end.

(** The failure bookkeeping shared by the [else] branch and the [catch]
    block.  [attempts] is the [activationAttempts] of the render in which
    [activateLicense] was created, [later] the [Date.now()] of the
    failure. *)
Definition recordFailure (attempts later : Z) (message : string) (st : t) : t :=
  let newAttempts := attempts + 1 in
  let st1 := setActivationAttempts newAttempts st in
  if 3 <=? newAttempts then
    setActivationError
      "Too many failed attempts. Please wait 1 minute before trying again"
      (setLockoutUntil (later + 60 * 1000) st1)
  else setActivationError message st1.

(** [activateLicense], called at time [now]; [reply] is how the request
    settles and [later] the time at which it does.  The second component
    lists the effects in order; it holds a [PostActivate] exactly when the
    request was sent. *)
Definition activateLicense (now later : Z) (reply : Reply) (st : t)
    : t * list Effect :=
  let st0 := setActivationError "" st in
  if String.eqb (trim (licenseKey st)) "" then
    (setActivationError "Please enter a license key" st0, [])
  else if negb (isValidLicenseKeyFormat (licenseKey st)) then
    (setActivationError "Please enter a valid license key." st0, [])
  else
    let (ok, st1) := canAttemptActivation now st0 in
    if negb ok then
      (setActivationError
         ("Too many attempts. Please wait " ++ pretty (lockoutCountdown st)
          ++ " seconds before trying again") st1, [])
    else
      let st2 := setLastActivationAttempt now (setIsActivating true st1) in
      let post := PostActivate (trim (licenseKey st)) in
      match reply with
      | Response true _ =>
          (setIsActivating false
             (setActivationError ""
                (setLicenseKey ""
                   (setLockoutUntil 0 (setActivationAttempts 0 st2)))),
           [post; AlertActivated; RefreshLicenseInfo; CloseModals])
      | Response false serverError =>
          (setIsActivating false
             (recordFailure (activationAttempts st) later
                (rejectionMessage serverError) st2),
           [post])
      | Threw e =>
          (setIsActivating false
             (recordFailure (activationAttempts st) later (thrownMessage e) st2),
           [post])
      end.

(** A reply that is not a success. *)
Definition isFailure (reply : Reply) : bool :=
  match reply with
  | Response true _ => false
  | Response false _ => true
  | Threw _ => true
  end.

(** The state after one call of [activateLicense]. *)
Definition attempt (now later : Z) (reply : Reply) (st : t) : t :=
  fst (activateLicense now later reply st).

End Activation.

(** ** Sample data *)

Definition sampleFile (n : string) (s : Status) (p : Q) : AudioFile :=
  mkAudioFile n ("/music/" ++ n) s None None (Some p).

(** A session of one file named [a.mp3], as [files-selected] creates it. *)
Definition oneFile : App := filesSelected ["/music/a.mp3"] initialApp.

(** The same session once [startProcessing] has been acknowledged. *)
Definition running : App := startProcessing ProcessResponse oneFile.

(** [{isProcessing:true, fileStatuses:{"0":tok}, fileProgress:[p]}] *)
Definition snapshot (tok : string) (p : Q) : Progress.t :=
  Progress.mk true [] [p] {[ "0" := tok ]} [].

(** A trial session with three slots left and one file listed. *)
Definition trialApp : App :=
  syncRefs (fetchLicenseInfo
              (LicenseOk (License.mk "Trial" "" 7 10 3 true)) oneFile).

(** A session whose cached snapshot is a paid license, with a stale quota
    reference of zero. *)
Definition proApp : App :=
  syncRefs (setRemainingTrialFiles 0
              (fetchLicenseInfo (LicenseOk (License.mk "Pro" "K" 10 10 0 true)) oneFile)).

(** A fresh activation form holding a well-formed key. *)
Definition keyed : Activation.t :=
  Activation.setLicenseKey "RAFILIS-AAAAAAAAAAAA" Activation.initial.

(** ** Observers used to state the properties *)

(** The file lists after each of a series of settled polls, oldest first. *)
Fixpoint pollTrace (target : Q) (ds : list Progress.t) (files : list AudioFile)
    : list (list AudioFile) :=
  match ds with
  | [] => []
  | d :: ds' =>
      let files' := pollFiles target d files in
      files' :: pollTrace target ds' files'
  end.

(** The progress stored for the file at [index]. *)
Definition storedProgress (index : nat) (files : list AudioFile) : option Q :=
  files !! index ≫= progress.

(** What a snapshot says about the progress of the file at [index]: the
    entry of its [fileProgress] array at that index while the run is live
    (0 when the array has none), and 1 once the run has ended. *)
Definition reported (index : nat) (d : Progress.t) : Q :=
  if Progress.isProcessing d
  then match Progress.fileProgress d !! index with
       | Some p => p
       | None => 0%Q
       end
  else 1%Q.

(** Two optional numbers are the same number. *)
Definition sameNumber (a b : option Q) : Prop :=
  match a, b with
  | Some x, Some y => (x == y)%Q
  | None, None => True
  | _, _ => False
  end.

(** An optional progress value lies in [0,1]. *)
Definition withinUnit (p : option Q) : Prop :=
  match p with
  | Some q => (0 <= q)%Q /\ (q <= 1)%Q
  | None => True
  end.

(** Each value of the series is at most the next one. *)
Fixpoint nonDecreasing (ps : list (option Q)) : Prop :=
  match ps with
  | [] => True
  | p :: rest =>
      match p, rest with
      | Some a, Some b :: _ => (a <= b)%Q
      | _, _ => True
      end
      /\ nonDecreasing rest
  end.

(** [newLUFS] is populated only on [finalizing], [normalized] and
    [completed] entries. *)
Definition populatedOnlyWhenFinal (files : list AudioFile) : Prop :=
  Forall (fun file => is_Some (newLUFS file) -> carriesTarget (status file) = true)
    files.

(** Every populated [newLUFS] is [target], and every [finalizing],
    [normalized] or [completed] entry has it. *)
Definition carriesRunTarget (target : Q) (file : AudioFile) : Prop :=
  (newLUFS file = None \/ newLUFS file = Some target)
  /\ (carriesTarget (status file) = true -> newLUFS file = Some target).

(** The run invariant: every entry carries the target of the run, and
    every pending poll closure is one of this run. *)
Definition runInvariant (T : Q) (st : App) : Prop :=
  Forall (carriesRunTarget T) (audioFiles st)
  /\ Forall (fun target => target = T) (pollers st).

(** Every status is one that a stop leaves behind. *)
Definition allSettled (files : list AudioFile) : Prop :=
  Forall (fun file => status file = stopped \/ status file = completed
                      \/ status file = normalized) files.

(** ** Further operations of the session and of the license form *)

(** The Start button, besides the events of a run. *)
Inductive Action : Type :=
| Happens (ev : Event)
| StartClicked (reply : ProcessReply).

Definition act (a : Action) (st : App) : App :=
  match a with
  | Happens ev => step ev st
  | StartClicked reply => startProcessing reply st
  end.

Definition play (acts : list Action) (st : App) : App :=
  fold_left (fun s a => act a s) acts st.

(** The Clear button among the actions. *)
Definition clearsList (a : Action) : bool :=
  match a with
  | Happens FilesCleared => true
  | _ => false
  end.

(** The filter of the "Analyzed Songs" counter in the stats section. *)
Definition countsAsAnalyzed (s : Status) : bool :=
  match s with
  | analyzed | processing | finalizing | normalized | completed => true
  | _ => false
  end.

Definition analyzedSongs (files : list AudioFile) : nat :=
  length (List.filter (fun f => countsAsAnalyzed (status f)) files).

(** A path holds a slash. *)
Fixpoint hasSlash (s : string) : bool :=
  match s with
  | EmptyString => false
  | String c rest => Ascii.eqb c "/" || hasSlash rest
  end.

(** Two entries stand for the same file. *)
Definition sameFile (file file' : AudioFile) : Prop :=
  name file' = name file /\ path file' = path file.


Module Deactivation.
Import Activation.

(** What [deactivateLicense] does besides setting state. *)
Inductive Effect : Type :=
| PostDeactivate
| AlertDeactivated
| RefreshLicenseInfo
| CloseDeactivationModal.

Definition thrownMessage (e : Thrown) : string :=
  match e with
  | AxiosNetworkError => "Network error. Please check your connection"
  | AxiosStatus400 => "Deactivation request invalid"
  | AxiosOther => "Server error. Please try again later"
  | NotAxios => "Deactivation failed. Please try again"
  end.

(** [response.data.error || 'Deactivation failed'] *)
Definition rejectionMessage (serverError : option string) : string :=
  match serverError with
  | Some m => if String.eqb m "" then "Deactivation failed" else m
  | None => "Deactivation failed"
  end.

(** The effect is the request. *)
Definition isPost (e : Effect) : bool :=
  match e with
  | PostDeactivate => true
  | _ => false
  end.

(** [deactivateLicense]; [reply] is how [POST /license/deactivate]
    settles. *)
Definition deactivateLicense (reply : Reply) (st : t) : t * list Effect :=
  let st0 := setActivationError "" (setIsActivating true st) in
  match reply with
  | Response true _ =>
      (setIsActivating false st0,
       [PostDeactivate; AlertDeactivated; RefreshLicenseInfo; CloseDeactivationModal])
  | Response false serverError =>
      (setIsActivating false (setActivationError (rejectionMessage serverError) st0),
       [PostDeactivate])
  | Threw e =>
      (setIsActivating false (setActivationError (thrownMessage e) st0),
       [PostDeactivate])
  end.

End Deactivation.


(** The ways in which a poll or a stop rewrites one entry. *)
Inductive updates : AudioFile -> AudioFile -> Prop :=
| updates_same file : updates file file
| updates_stop file : updates file (stopRule file)
| updates_poll target data index file :
    Progress.isProcessing data = true ->
    updates file (pollFile target data index file)
| updates_results target pfs file :
    updates file (finishWithResults target pfs file)
| updates_fallback target file :
    updates file (finishFallback target file).

(** No entry has the status [normalized]. *)
Definition noneNormalized (files : list AudioFile) : Prop :=
  Forall (fun file => status file <> normalized) files.

(** What a run-ended poll leaves in an entry, for the closure's target. *)
Definition finished (target : Q) (file : AudioFile) : Prop :=
  status file = completed
  /\ progress file = Some 1%Q
  /\ newLUFS file = Some target
  /\ is_Some (currentLUFS file).


(** ** The seed of the waveform preview ([generateWaveformData])

    The preview multiplies a sine by pseudo-random draws; the hash of the
    file name and the generator of the draws are integer arithmetic and
    are embedded here, the sine is not. *)

(** ECMAScript's ToInt32 on an integer. *)
Definition toInt32 (z : Z) : Z :=
  let m := z mod 2 ^ 32 in
  if m <? 2 ^ 31 then m else m - 2 ^ 32.

(** The reducer: [a = ((a << 5) - a) + b.charCodeAt(0); return a & a]. *)
Definition hashStep (a : Z) (b : ascii) : Z :=
  let a1 := toInt32 (Z.shiftl (toInt32 a) 5) - a + Z.of_nat (nat_of_ascii b) in
  Z.land (toInt32 a1) (toInt32 a1).

(** [fileName.split('').reduce(..., seed)] *)
Definition nameHash (fileName : string) (seed : Z) : Z :=
  fold_left hashStep (list_ascii_of_string fileName) seed.

(** The state update of [random]: [(seedValue * 9301 + 49297) % 233280]. *)
Definition lcgNext (seedValue : Z) : Z :=
  Z.rem (seedValue * 9301 + 49297) 233280.

(** The values returned by the first [n] calls of [random], for a
    generator whose state is [seedValue]. *)
Fixpoint randomDraws (n : nat) (seedValue : Z) : list Q :=
  match n with
  | O => []
  | S n' =>
      let seedValue' := lcgNext seedValue in
      (seedValue' # 233280)%Q :: randomDraws n' seedValue'
  end.

(** The 120 draws of one preview: the generator starts from
    [Math.abs(hash)]. *)
Definition waveformDraws (fileName : string) (seed : Z) : list Q :=
  randomDraws 120 (Z.abs (nameHash fileName seed)).

(** The polynomial that the hash computes modulo 2^32. *)
Definition hashPolynomial (fileName : string) (seed : Z) : Z :=
  fold_left (fun a b => 31 * a + Z.of_nat (nat_of_ascii b))
    (list_ascii_of_string fileName) seed.

(** ** The development [.env] file ([startBackend], public/electron.js) *)

(** [s.split(sep)] for a separator of one character. *)
Fixpoint splitOn (sep : ascii) (s : string) : list string :=
  match s with
  | EmptyString => [EmptyString]
  | String c rest =>
      if Ascii.eqb c sep then EmptyString :: splitOn sep rest
      else
        match splitOn sep rest with
        | first :: others => String c first :: others
        | [] => [String c EmptyString]
        end
  end.

(** [parts.join(sep)] *)
Fixpoint joinWith (sep : ascii) (parts : list string) : string :=
  match parts with
  | [] => EmptyString
  | [part] => part
  | part :: rest => (part ++ String sep (joinWith sep rest))%string
  end.

(** [s.endsWith(suffix)] *)
Definition endsWith (suffix s : string) : bool :=
  String.prefix (String.rev suffix) (String.rev s).

Fixpoint dropLast (s : string) : string :=
  match s with
  | EmptyString => EmptyString
  | String c rest =>
      match rest with
      | EmptyString => EmptyString
      | String _ _ => String c (dropLast rest)
      end
  end.

(** [s.slice(1, -1)] *)
Definition sliceInner (s : string) : string :=
  match s with
  | EmptyString => EmptyString
  | String _ rest => dropLast rest
  end.

(** The double quote and the line feed. *)
Definition doubleQuote : string := String (ascii_of_nat 34) EmptyString.
Definition lineFeed : ascii := ascii_of_nat 10.

(** "Remove quotes if present" *)
Definition stripQuotes (value : string) : string :=
  if (String.prefix doubleQuote value && endsWith doubleQuote value)
     || (String.prefix "'" value && endsWith "'" value)
  then sliceInner value else value.

(** [envVars[name] = value] on the object literal [envVars], whose own
    properties the map holds: the name [__proto__] reaches the setter of
    [Object.prototype], which ignores a string and defines nothing. *)
Definition assignProperty (name value : string) (envVars : gmap string string)
    : gmap string string :=
  if String.eqb name "__proto__" then envVars else <[name := value]> envVars.

(** The callback of [envContent.split('\n').forEach]. *)
Definition parseEnvLine (line : string) (envVars : gmap string string)
    : gmap string string :=
  if negb (String.eqb (trim line) "") && negb (String.prefix "#" line) then
    match splitOn "=" line with
    | key :: valueParts =>
        if negb (String.eqb key "") && (0 <? Z.of_nat (length valueParts)) then
          assignProperty (trim key) (stripQuotes (joinWith "=" valueParts)) envVars
        else envVars
    | [] => envVars
    end
  else envVars.

(** [envVars] after the [forEach]. *)
Definition parseEnv (envContent : string) : gmap string string :=
  fold_left (fun envVars line => parseEnvLine line envVars)
    (splitOn lineFeed envContent) ∅.

(** [Object.assign(process.env, envVars)]: every own property of
    [envVars] is assigned to [process.env], which takes no variable with
    an empty name. *)
Definition loadEnv (envContent : string) (processEnv : gmap string string)
    : gmap string string :=
  delete "" (parseEnv envContent) ∪ processEnv.

(** Every character is white space. *)
Fixpoint allSpaces (s : string) : bool :=
  match s with
  | EmptyString => true
  | String c rest => isSpace c && allSpaces rest
  end.

(** The string holds the character. *)
Fixpoint holds (c : ascii) (s : string) : bool :=
  match s with
  | EmptyString => false
  | String c' rest => Ascii.eqb c' c || holds c rest
  end.

(** ** Scanning the selection for audio files
       (the [request-files-selection] handler, public/electron.js)

    Node's [path.extname] and [path.join] are parameters; the file system
    is the tree of what [statSync] and [readdirSync] answer. *)

(** [String.prototype.toLowerCase] on the Latin-1 code units. *)
Definition lowerChar (c : ascii) : ascii :=
  let n := nat_of_ascii c in
  if ((65 <=? n) && (n <=? 90)
      || (192 <=? n) && (n <=? 222) && negb (n =? 215))%nat
  then ascii_of_nat (n + 32) else c.

Fixpoint toLowerCase (s : string) : string :=
  match s with
  | EmptyString => EmptyString
  | String c rest => String (lowerChar c) (toLowerCase rest)
  end.

Definition audioExtensions : list string :=
  [".mp3"; ".wav"; ".flac"; ".m4a"; ".aac"].

(** [audioExtensions.includes(ext)] *)
Definition isAudioExtension (ext : string) : bool :=
  existsb (String.eqb ext) audioExtensions.

(** What is found at a path. *)
#[warnings="-register-all"]
Inductive FsNode : Type :=
| FsFile
| FsDir (items : list (string * FsNode))
| FsLockedDir
| FsOther
| FsBroken.

(** How the open dialog settled. *)
Inductive DialogReply : Type :=
| DialogCanceled
| DialogPaths (filePaths : list (string * FsNode))
| DialogThrew.

(** What the handler does in the end. *)
Inductive ScanOutcome : Type :=
| NoMessage
| SendFilesSelected (allAudioFiles : list string)
| ShowNoAudioFilesFound
| ShowDialogError.

Section Scan.
Variable extname : string -> string.
Variable joinPath : string -> string -> string.

(** [scanDirectory]; [node] is what is found at [dirPath].  [FsLockedDir]
    is a directory that [readdirSync] cannot list, [FsBroken] an entry
    on which [statSync] throws, [FsOther] one that is neither a file nor
    a directory.  The [try] block holds the whole loop, so a throwing
    [statSync] ends the scan of the directory it happens in. *)
Fixpoint scanDirectory (dirPath : string) (node : FsNode)
    (includeSubfolders : bool) (allAudioFiles : list string) : list string :=
  match node with
  | FsDir items =>
      (fix scanItems (items : list (string * FsNode)) (found : list string)
         : list string :=
         match items with
         | [] => found
         | (item, child) :: rest =>
             let fullPath := joinPath dirPath item in
             match child with
             | FsBroken => found
             | FsFile =>
                 scanItems rest
                   (if isAudioExtension (toLowerCase (extname item))
                    then found ++ [fullPath] else found)
             | FsDir _ | FsLockedDir =>
                 scanItems rest
                   (if includeSubfolders
                    then scanDirectory fullPath child includeSubfolders found
                    else found)
             | FsOther => scanItems rest found
             end
         end) items allAudioFiles
  | _ => allAudioFiles
  end.

(** The body of [for (const selectedPath of result.filePaths)]. *)
Definition scanSelected (allAudioFiles : list string)
    (selected : string * FsNode) : list string :=
  let (selectedPath, node) := selected in
  match node with
  | FsFile =>
      if isAudioExtension (toLowerCase (extname selectedPath))
      then allAudioFiles ++ [selectedPath] else allAudioFiles
  | FsDir _ | FsLockedDir => scanDirectory selectedPath node true allAudioFiles
  | FsOther | FsBroken => allAudioFiles
  end.

(** The [request-files-selection] handler. *)
Definition requestFilesSelection (reply : DialogReply) : ScanOutcome :=
  match reply with
  | DialogCanceled => NoMessage
  | DialogPaths [] => NoMessage
  | DialogPaths filePaths =>
      match fold_left scanSelected filePaths [] with
      | [] => ShowNoAudioFilesFound
      | allAudioFiles => SendFilesSelected allAudioFiles
      end
  | DialogThrew => ShowDialogError
  end.

(** The items of a directory, one by one, as the loop of
    [scanDirectory] goes through them. *)
Fixpoint scanItems (dirPath : string) (includeSubfolders : bool)
    (items : list (string * FsNode)) (found : list string) : list string :=
  match items with
  | [] => found
  | (item, child) :: rest =>
      let fullPath := joinPath dirPath item in
      match child with
      | FsBroken => found
      | FsFile =>
          scanItems dirPath includeSubfolders rest
            (if isAudioExtension (toLowerCase (extname item))
             then found ++ [fullPath] else found)
      | FsDir _ | FsLockedDir =>
          scanItems dirPath includeSubfolders rest
            (if includeSubfolders
             then scanDirectory fullPath child includeSubfolders found
             else found)
      | FsOther => scanItems dirPath includeSubfolders rest found
      end
  end.

(** [listedUnder dirPath node p]: [node], found at [dirPath], is a
    directory that lists, itself or in one of the directories below it, a
    file with an audio extension whose path, the name joined to the path
    of the directory that lists it, is [p]. *)
Inductive listedUnder (dirPath : string) : FsNode -> string -> Prop :=
| listed_here items item :
    In (item, FsFile) items ->
    isAudioExtension (toLowerCase (extname item)) = true ->
    listedUnder dirPath (FsDir items) (joinPath dirPath item)
| listed_below items item child p :
    In (item, child) items ->
    listedUnder (joinPath dirPath item) child p ->
    listedUnder dirPath (FsDir items) p.

(** A path that the scan may report: a selected file with an audio
    extension, or an audio file listed under a selected directory. *)
Definition audioPath (selection : list (string * FsNode)) (p : string) : Prop :=
  (In (p, FsFile) selection
   /\ isAudioExtension (toLowerCase (extname p)) = true)
  \/ exists selectedPath node,
       In (selectedPath, node) selection
       /\ listedUnder selectedPath node p.

End Scan.

(** ** The custom target input ([validateLUFS], [handleCustomLUFSChange])

    [parseFloat] is a parameter: [None] stands for the results that are
    not finite numbers, which the range test turns down like [NaN]. *)

Section CustomTarget.
Variable parseFloat : string -> option Q.

(** [!isNaN(num) && num >= -70 && num <= 0] *)
Definition validateLUFS (value : string) : bool :=
  match parseFloat value with
  | Some num => Qle_bool (-70) num && Qle_bool num 0
  | None => false
  end.

(** [handleCustomLUFSChange], on the target. *)
Definition handleCustomLUFSChange (value : string) (st : App) : App :=
  if validateLUFS value then
    match parseFloat value with
    | Some num => setTargetLUFS num st
    | None => st
    end
  else st.

End CustomTarget.


(** Stand-ins for the two parameters, used to run the scan on sample
    trees: [path.extname] and [path.join] of POSIX paths, for paths that
    do not end in a slash and item names that are plain names. *)
Definition posixExtname (p : string) : string :=
  let base := lastSegment EmptyString p in
  if String.eqb base ".." then EmptyString
  else
    match splitOn "." base with
    | [] | [_] => EmptyString
    | [stem; ext] =>
        if String.eqb stem "" then EmptyString else String "." ext
    | parts => String "." (List.last parts EmptyString)
    end.

Definition posixJoin (dirPath item : string) : string :=
  (dirPath ++ String "/" item)%string.

(** A sample music folder, its entries in the order of their names: a
    track, a cover, a folder with a text file and a track, a dangling
    link, and a track listed after the link. *)
Definition sampleFolder : FsNode :=
  FsDir [("a-one.MP3", FsFile);
         ("cover.jpg", FsFile);
         ("live", FsDir [("notes.txt", FsFile); ("two.flac", FsFile)]);
         ("missing", FsBroken);
         ("three.wav", FsFile)].


(** A stand-in for [parseFloat] on three inputs, used to run the custom
    target input on samples. *)
Definition sampleParseFloat (value : string) : option Q :=
  if String.eqb value "-14.5" then Some (-145 # 10)%Q
  else if String.eqb value "5" then Some 5%Q
  else if String.eqb value "-80" then Some (-80)%Q
  else None.


(** ** What an admitted path becomes, and the admission rule *)

(** [n] is what follows the last slash of [p], or [p] itself when that is
    empty or when [p] has no slash. *)
Definition baseNameOf (p n : string) : Prop :=
  (hasSlash p = false /\ n = p)
  \/ exists dir base,
       p = (dir ++ String "/" base)%string
       /\ hasSlash base = false
       /\ n = (if String.eqb base "" then p else base).

(** [file] is the entry that a handler creates for the offered path
    [p]. *)
Definition offeredEntry (p : string) (file : AudioFile) : Prop :=
  path file = p
  /\ baseNameOf p (name file)
  /\ status file = pending
  /\ currentLUFS file = None
  /\ newLUFS file = None
  /\ progress file = None.

(** The refs hold what the state holds, as after the effects of a
    render. *)
Definition rendered (st : App) : Prop :=
  audioFilesRef st = audioFiles st
  /\ licenseInfoRef st = licenseInfo st
  /\ remainingTrialFilesRef st = remainingTrialFiles st.


(** * Properties *)

(** ** The embedding on sample inputs *)

Example fileNameOf_path : fileNameOf "/music/live/a.mp3" = "a.mp3".
Proof. reflexivity. Qed.

Example fileNameOf_trailing_slash : fileNameOf "/music/live/" = "/music/live/".
Proof. reflexivity. Qed.

Example trim_sample : trim "  RAFILIS-1 2  " = "RAFILIS-1 2".
Proof. reflexivity. Qed.

Example oneFile_entry :
  audioFiles oneFile = [mkAudioFile "a.mp3" "/music/a.mp3" pending None None None].
Proof. reflexivity. Qed.

Example running_entry :
  audioFiles running = [sampleFile "a.mp3" pending 0] /\ pollers running = [(-12)%Q].
Proof. split; reflexivity. Qed.

Example run_ended_with_results :
  pollFiles (-12) (Progress.mk false [Processed.mk "a.mp3" (Some (-9)%Q)] [] ∅ [])
    (audioFiles running)
  = [mkAudioFile "a.mp3" "/music/a.mp3" completed (Some (-9)%Q) (Some (-12)%Q) (Some 1%Q)].
Proof. vm_compute. reflexivity. Qed.

Example countdown_rounds_up :
  Activation.lockoutCountdown
    (Activation.countdownTick 1001 (Activation.mk "" false "" 0 3 61000 0)) = 60.
Proof. reflexivity. Qed.

(** ** The stop rule *)

Lemma stopRule_idem (file : AudioFile) : stopRule (stopRule file) = stopRule file.
Proof. destruct file as [n p s c nl pr]; destruct s; reflexivity. Qed.

Lemma stopRule_status (file : AudioFile) :
  status (stopRule file) = stopped \/ status (stopRule file) = completed
  \/ status (stopRule file) = normalized.
Proof. destruct file as [n p s c nl pr]; destruct s; simpl; auto. Qed.

Lemma audioFiles_setAudioFiles f st :
  audioFiles (setAudioFiles f st) = f (audioFiles st).
Proof. destruct st; reflexivity. Qed.

Lemma audioFiles_stopRequested st : audioFiles (stopRequested st) = audioFiles st.
Proof. destruct st; reflexivity. Qed.

Lemma audioFiles_stop_response success st :
  audioFiles (stopProcessing (StopResponse success) st)
  = List.map stopRule (audioFiles st).
Proof.
  unfold stopProcessing; simpl.
  rewrite audioFiles_setAudioFiles. now rewrite audioFiles_stopRequested.
Qed.

Lemma audioFiles_stop_threw st :
  audioFiles (stopProcessing StopThrew st) = audioFiles st.
Proof. destruct st; reflexivity. Qed.

(** C7: applying the stop-rule update twice gives the same file entries as
    applying it once, entry by entry and for the whole list, also through
    two calls of [stopProcessing] that both reach the forced update. *)
Theorem stop_rule_idempotent :
  (forall files : list AudioFile,
      List.map stopRule (List.map stopRule files) = List.map stopRule files)
  /\ (forall (st : App) (s1 s2 : bool),
        audioFiles (stopProcessing (StopResponse s2)
                      (stopProcessing (StopResponse s1) st))
        = audioFiles (stopProcessing (StopResponse s1) st)).
Proof.
  assert (Hmap : forall files : list AudioFile,
             List.map stopRule (List.map stopRule files) = List.map stopRule files).
  { induction files as [|file files IH]; simpl; [reflexivity|].
    now rewrite stopRule_idem, IH. }
  split; [exact Hmap|].
  intros st s1 s2. rewrite !audioFiles_stop_response. apply Hmap.
Qed.

(** C2, at the input where it fails: when [POST /stop] throws, the [catch]
    block of [stopProcessing] sets the two flags and nothing else, so a
    file that was processing at 40% stays processing at 40%; the same file
    list is forced to [stopped] with progress 0 when the call returns a
    response. *)
Theorem stop_threw_skips_forced_update :
  let st := step (PollSettled 0 (ProgressResponse (snapshot "Normalizing" (4 # 10)))) running in
  audioFiles st = [sampleFile "a.mp3" processing (4 # 10)]
  /\ audioFiles (stopProcessing StopThrew st) = [sampleFile "a.mp3" processing (4 # 10)]
  /\ audioFiles (stopProcessing (StopResponse false) st)
     = [sampleFile "a.mp3" stopped 0].
Proof. repeat split; vm_compute; reflexivity. Qed.

(** ** The per-file status mapping *)

Lemma pollFiles_active target data files :
  Progress.isProcessing data = true ->
  pollFiles target data files = imap (pollFile target data) files.
Proof. intros H. unfold pollFiles. now rewrite H. Qed.

Lemma pollFiles_lookup_active target data (files : list AudioFile) i :
  Progress.isProcessing data = true ->
  pollFiles target data files !! i = pollFile target data i <$> files !! i.
Proof. intros H. rewrite pollFiles_active by exact H. apply list_lookup_imap. Qed.

Lemma mapStatus_Normalizing b p l :
  mapStatus b "Normalizing" p l
  = if Qle_bool (95 # 100) p then finalizing else processing.
Proof. reflexivity. Qed.

(** What [fileProgressArray[index] || 0] reads is the number the array
    holds at the index, and 0 when it holds none. *)
Lemma progressAt_lookup (fileProgressArray : list Q) (index : nat) :
  (progressAt fileProgressArray index
   == match fileProgressArray !! index with
      | Some p => p
      | None => 0
      end)%Q.
Proof.
  unfold progressAt. destruct (fileProgressArray !! index) as [p|]; [|reflexivity].
  destruct (Qeq_bool p 0) eqn:E; [|reflexivity].
  apply Qeq_bool_iff in E. now symmetry.
Qed.

Lemma status_pollFile_Normalizing target data i file :
  Progress.fileStatuses data !! pretty i = Some "Normalizing" ->
  status (pollFile target data i file)
  = if Qle_bool (95 # 100) (progressAt (Progress.fileProgress data) i)
    then finalizing else processing.
Proof.
  intros Htok. unfold pollFile; simpl. unfold statusTokenAt. rewrite Htok. simpl.
  apply mapStatus_Normalizing.
Qed.

(** C8: in a poll cycle of an active run, a file whose backend token is
    ["Normalizing"] becomes [finalizing] when the progress that the
    snapshot's [fileProgress] array reports at its index is at least 0.95,
    and [processing] when it is below or when the array reports none; the
    snapshot of the scenario maps file 0 to [finalizing]. *)
Theorem normalizing_token_mapping :
  (forall (target : Q) (data : Progress.t) (files : list AudioFile)
          (i : nat) (file : AudioFile),
      Progress.isProcessing data = true ->
      files !! i = Some file ->
      Progress.fileStatuses data !! pretty i = Some "Normalizing" ->
      exists file', pollFiles target data files !! i = Some file'
        /\ (forall p : Q,
              Progress.fileProgress data !! i = Some p ->
              ((95 # 100 <= p)%Q -> status file' = finalizing)
              /\ ((p < 95 # 100)%Q -> status file' = processing))
        /\ (Progress.fileProgress data !! i = None -> status file' = processing))
  /\ status <$> audioFiles
                  (step (PollSettled 0 (ProgressResponse (snapshot "Normalizing" (97 # 100))))
                     running)
     = [finalizing].
Proof.
  split; [|vm_compute; reflexivity].
  intros target data files i file Hact Hfile Htok.
  exists (pollFile target data i file). split.
  { rewrite pollFiles_lookup_active by exact Hact. now rewrite Hfile. }
  rewrite (status_pollFile_Normalizing target data i file Htok).
  pose proof (progressAt_lookup (Progress.fileProgress data) i) as Hq.
  destruct (Progress.fileProgress data !! i) as [p0|] eqn:Ep; split.
  - intros p Hp. injection Hp as <-. split; intros Hcmp.
    + rewrite <- Hq in Hcmp. apply Qle_bool_iff in Hcmp. now rewrite Hcmp.
    + destruct (Qle_bool (95 # 100) (progressAt (Progress.fileProgress data) i))
        eqn:E; [|reflexivity].
      apply Qle_bool_iff in E. rewrite Hq in E.
      exfalso. exact (Qlt_not_le _ _ Hcmp E).
  - discriminate.
  - intros p Hp. discriminate.
  - intros _.
    destruct (Qle_bool (95 # 100) (progressAt (Progress.fileProgress data) i))
      eqn:E; [|reflexivity].
    apply Qle_bool_iff in E. rewrite Hq in E.
    exfalso. revert E. unfold Qle; simpl. lia.
Qed.

Lemma normalizing_token_mapping_witness :
  exists file',
    pollFiles (-12) (snapshot "Normalizing" (97 # 100)) (audioFiles running) !! 0%nat
    = Some file'
    /\ (forall p : Q,
          Progress.fileProgress (snapshot "Normalizing" (97 # 100)) !! 0%nat = Some p ->
          ((95 # 100 <= p)%Q -> status file' = finalizing)
          /\ ((p < 95 # 100)%Q -> status file' = processing))
    /\ (Progress.fileProgress (snapshot "Normalizing" (97 # 100)) !! 0%nat = None ->
        status file' = processing).
Proof.
  apply (proj1 normalizing_token_mapping (-12)%Q
           (snapshot "Normalizing" (97 # 100)) (audioFiles running) 0%nat
           (sampleFile "a.mp3" pending 0)).
  - reflexivity.
  - reflexivity.
  - reflexivity.
Defined.

Example normalizing_thresholds :
  status <$> pollFiles (-12) (snapshot "Normalizing" (95 # 100)) (audioFiles running)
  = [finalizing]
  /\ status <$> pollFiles (-12) (snapshot "Normalizing" (94 # 100)) (audioFiles running)
     = [processing].
Proof. split; vm_compute; reflexivity. Qed.

(** ** License-key format and local rejection *)

Lemma prefix_iff (p s : string) :
  String.prefix p s = true <-> exists rest, s = (p ++ rest)%string.
Proof.
  revert s. induction p as [|a p IH]; intros s; simpl.
  - destruct s; split; eauto.
  - destruct s as [|b s]; simpl.
    + split; [discriminate|]. intros [rest H]. discriminate.
    + destruct (ascii_dec a b) as [->|Hne].
      * rewrite IH. split; intros [rest H]; exists rest.
        -- now rewrite H.
        -- now injection H.
      * split; [discriminate|]. intros [rest H]. injection H as Hab _.
        now symmetry in Hab.
Qed.

Lemma isValidLicenseKeyFormat_iff (key : string) :
  isValidLicenseKeyFormat key = true
  <-> (exists rest, key = ("RAFILIS-" ++ rest)%string) /\ (20 <= String.length key)%nat.
Proof.
  unfold isValidLicenseKeyFormat. rewrite andb_true_iff, prefix_iff, Z.leb_le.
  split; intros [H1 H2]; (split; [exact H1|lia]).
Qed.

(** C9: a key passes format validation exactly when it begins with
    ["RAFILIS-"] and has at least 20 characters; the three keys of the
    scenario pass, fail and fail; and [activateLicense] on a blank or
    format-invalid key sends no request and leaves the attempt counter and
    the lockout as they were. *)
Theorem license_key_format :
  (forall key : string,
      isValidLicenseKeyFormat key = true
      <-> (exists rest, key = ("RAFILIS-" ++ rest)%string)
          /\ (20 <= String.length key)%nat)
  /\ isValidLicenseKeyFormat "RAFILIS-AAAAAAAAAAAA" = true
  /\ isValidLicenseKeyFormat "RAFILIS-123" = false
  /\ isValidLicenseKeyFormat "BADPREFIX-AAAAAAAAAAAA" = false
  /\ (forall (now later : Z) (reply : Activation.Reply) (st : Activation.t),
        trim (Activation.licenseKey st) = ""
        \/ isValidLicenseKeyFormat (Activation.licenseKey st) = false ->
        let (st', effects) := Activation.activateLicense now later reply st in
        effects = []
        /\ Activation.activationError st' <> ""
        /\ Activation.activationAttempts st' = Activation.activationAttempts st
        /\ Activation.lockoutUntil st' = Activation.lockoutUntil st).
Proof.
  split; [exact isValidLicenseKeyFormat_iff|].
  repeat (split; [reflexivity|]).
  intros now later reply st H. unfold Activation.activateLicense.
  destruct (String.eqb (trim (Activation.licenseKey st)) "") eqn:Eblank.
  - destruct st; simpl; repeat split; discriminate.
  - destruct H as [H|H].
    + rewrite H in Eblank. discriminate.
    + rewrite H. simpl. destruct st; simpl; repeat split; discriminate.
Qed.

Lemma license_key_format_witness :
  let (st', effects) :=
    Activation.activateLicense 1000 1200 (Activation.Response true None)
      (Activation.setLicenseKey "RAFILIS-123" Activation.initial) in
  effects = []
  /\ Activation.activationError st' <> ""
  /\ Activation.activationAttempts st' = 0
  /\ Activation.lockoutUntil st' = 0.
Proof.
  apply (proj2 (proj2 (proj2 (proj2 license_key_format))) 1000 1200
           (Activation.Response true None)
           (Activation.setLicenseKey "RAFILIS-123" Activation.initial)).
  right. reflexivity.
Defined.

(** ** The entry created for an offered path *)

Lemma append_cons (a : ascii) (s t : string) :
  (String a s ++ t = String a (s ++ t))%string.
Proof. reflexivity. Qed.

Lemma append_nil_r (s : string) : (s ++ EmptyString = s)%string.
Proof.
  induction s as [|a s IH]; [reflexivity|]. rewrite append_cons. now rewrite IH.
Qed.

Lemma append_snoc (cur : string) (c : ascii) (rest : string) :
  ((cur ++ String c EmptyString) ++ rest = cur ++ String c rest)%string.
Proof.
  induction cur as [|a cur IH]; [reflexivity|].
  rewrite !append_cons. now rewrite IH.
Qed.

Lemma lastSegment_no_slash (s cur : string) :
  hasSlash s = false -> lastSegment cur s = (cur ++ s)%string.
Proof.
  revert cur. induction s as [|c s IH]; intros cur H; simpl in *.
  - now rewrite append_nil_r.
  - apply orb_false_iff in H as [Hc Hs]. rewrite Hc. cbv iota.
    rewrite IH by exact Hs. apply append_snoc.
Qed.

Lemma lastSegment_after_slash (dir base cur : string) :
  lastSegment cur (dir ++ String "/" base)%string = lastSegment EmptyString base.
Proof.
  revert cur. induction dir as [|c dir IH]; intros cur; simpl.
  - reflexivity.
  - destruct (Ascii.eqb c "/"); apply IH.
Qed.

Lemma hasSlash_split (p : string) :
  hasSlash p = true ->
  exists dir base, p = (dir ++ String "/" base)%string /\ hasSlash base = false.
Proof.
  induction p as [|c p IH]; simpl; [discriminate|].
  destruct (hasSlash p) eqn:Ep.
  - intros _. destruct (IH eq_refl) as (dir & base & -> & Hbase).
    exists (String c dir), base. split; [reflexivity|exact Hbase].
  - rewrite orb_false_r. intros Hc. apply Ascii.eqb_eq in Hc. subst c.
    exists EmptyString, p. split; [reflexivity|exact Ep].
Qed.

(** The name that the handlers give an entry is the base name of its
    path. *)
Lemma baseNameOf_fileNameOf (p : string) : baseNameOf p (fileNameOf p).
Proof.
  destruct (hasSlash p) eqn:Hp.
  - right. destruct (hasSlash_split p Hp) as (dir & base & -> & Hbase).
    exists dir, base. split; [reflexivity|]. split; [exact Hbase|].
    unfold fileNameOf.
    rewrite lastSegment_after_slash, lastSegment_no_slash by exact Hbase.
    reflexivity.
  - left. split; [exact Hp|]. unfold fileNameOf.
    rewrite lastSegment_no_slash by exact Hp.
    change (EmptyString ++ p)%string with p.
    destruct (String.eqb p ""); reflexivity.
Qed.

Lemma offeredEntry_newFile (p : string) : offeredEntry p (newFile p).
Proof.
  unfold offeredEntry, newFile; simpl.
  split; [reflexivity|]. split; [apply baseNameOf_fileNameOf|]. repeat split.
Qed.

Lemma offeredEntries_newFile (P : list string) :
  Forall2 offeredEntry P (List.map newFile P).
Proof.
  induction P as [|p P IH]; simpl; constructor;
    [apply offeredEntry_newFile|exact IH].
Qed.

(** ** Quota guard *)

Lemma isTrial_Some (license : License.t) :
  isTrial (Some license) = String.prefix "Trial" (License.status license).
Proof. unfold isTrial. destruct (License.status license); reflexivity. Qed.

Lemma availableSlots_nonneg st : 0 <= availableSlots st.
Proof. unfold availableSlots. lia. Qed.

Section QuotaProjections.
Variable st : App.

Lemma audioFiles_alert a : audioFiles (alert a st) = audioFiles st.
Proof. destruct st; reflexivity. Qed.

Lemma audioFiles_setShowUpgradeModal b :
  audioFiles (setShowUpgradeModal b st) = audioFiles st.
Proof. destruct st; reflexivity. Qed.

Lemma showUpgradeModal_set b : showUpgradeModal (setShowUpgradeModal b st) = b.
Proof. destruct st; reflexivity. Qed.

Lemma alerts_setShowUpgradeModal b : alerts (setShowUpgradeModal b st) = alerts st.
Proof. destruct st; reflexivity. Qed.

Lemma alerts_alert a : alerts (alert a st) = alerts st ++ [a].
Proof. destruct st; reflexivity. Qed.

Lemma alerts_setAudioFiles f : alerts (setAudioFiles f st) = alerts st.
Proof. destruct st; reflexivity. Qed.

Lemma showUpgradeModal_setAudioFiles f :
  showUpgradeModal (setAudioFiles f st) = showUpgradeModal st.
Proof. destruct st; reflexivity. Qed.

End QuotaProjections.



Example trialApp_is_rendered : rendered trialApp.
Proof. repeat split. Qed.

Example trial_admission_sample :
  audioFiles (filesSelected ["/m/b.wav"; "/m/c.wav"; "/m/d.wav"] trialApp)
  = [mkAudioFile "a.mp3" "/music/a.mp3" pending None None None;
     mkAudioFile "b.wav" "/m/b.wav" pending None None None;
     mkAudioFile "c.wav" "/m/c.wav" pending None None None].
Proof. reflexivity. Qed.


(** C10: without a cached license snapshot, or with one whose status does
    not start with ["Trial"], both handlers append a [pending] entry for
    every offered path, in order, and raise nothing. *)
Theorem no_quota_without_trial_snapshot :
  forall (st : App) (P : list string) (p : string),
    (licenseInfoRef st = None
     \/ exists license, licenseInfoRef st = Some license
          /\ String.prefix "Trial" (License.status license) = false) ->
    (exists appended,
        audioFiles (filesSelected P st) = audioFiles st ++ appended
        /\ Forall2 offeredEntry P appended
        /\ alerts (filesSelected P st) = alerts st
        /\ showUpgradeModal (filesSelected P st) = showUpgradeModal st)
    /\ (exists entry,
          audioFiles (fileDropped p st) = audioFiles st ++ [entry]
          /\ offeredEntry p entry
          /\ alerts (fileDropped p st) = alerts st
          /\ showUpgradeModal (fileDropped p st) = showUpgradeModal st).
Proof.
  intros st P p H.
  assert (Hno : isTrial (licenseInfoRef st) = false).
  { destruct H as [->|[license [-> Hp]]]; [reflexivity|].
    now rewrite isTrial_Some. }
  unfold filesSelected, fileDropped. rewrite Hno. simpl.
  rewrite !audioFiles_setAudioFiles, !alerts_setAudioFiles,
    !showUpgradeModal_setAudioFiles.
  split.
  - exists (List.map newFile P). split; [reflexivity|].
    split; [apply offeredEntries_newFile|]. split; reflexivity.
  - exists (newFile p). split; [reflexivity|].
    split; [apply offeredEntry_newFile|]. split; reflexivity.
Qed.

Lemma no_quota_without_trial_snapshot_witness :
  (exists appended,
      audioFiles (filesSelected ["/m/b.wav"; "/m/c.wav"] proApp)
      = audioFiles proApp ++ appended
      /\ Forall2 offeredEntry ["/m/b.wav"; "/m/c.wav"] appended
      /\ alerts (filesSelected ["/m/b.wav"; "/m/c.wav"] proApp) = alerts proApp
      /\ showUpgradeModal (filesSelected ["/m/b.wav"; "/m/c.wav"] proApp)
         = showUpgradeModal proApp)
  /\ (exists entry,
        audioFiles (fileDropped "/m/d.wav" proApp) = audioFiles proApp ++ [entry]
        /\ offeredEntry "/m/d.wav" entry
        /\ alerts (fileDropped "/m/d.wav" proApp) = alerts proApp
        /\ showUpgradeModal (fileDropped "/m/d.wav" proApp) = showUpgradeModal proApp).
Proof.
  apply (no_quota_without_trial_snapshot proApp ["/m/b.wav"; "/m/c.wav"] "/m/d.wav").
  right. exists (License.mk "Pro" "K" 10 10 0 true). split; reflexivity.
Defined.

(** ** Activation attempts and lockout *)

Module ActivationFacts.
Import Activation.

Lemma canAttempt_open now st :
  lockoutUntil st <= now -> activationAttempts st < 3 ->
  canAttemptActivation now st = (true, st).
Proof.
  intros Hlock Hn. unfold canAttemptActivation.
  destruct (now <? lockoutUntil st) eqn:E; [apply Z.ltb_lt in E; lia|].
  destruct (3 <=? activationAttempts st) eqn:E3; [apply Z.leb_le in E3; lia|].
  now rewrite andb_false_r.
Qed.

Lemma canAttempt_locked now st :
  now < lockoutUntil st -> canAttemptActivation now st = (false, st).
Proof.
  intros H. unfold canAttemptActivation.
  apply Z.ltb_lt in H. now rewrite H.
Qed.

Lemma canAttempt_expired now st :
  lockoutUntil st <= now -> 3 <= activationAttempts st ->
  canAttemptActivation now st
  = (true, setLockoutUntil 0 (setActivationAttempts 0 st)).
Proof.
  intros Hlock Hn. unfold canAttemptActivation.
  destruct (now <? lockoutUntil st) eqn:E; [apply Z.ltb_lt in E; lia|].
  apply Z.leb_le in Hlock, Hn. now rewrite Hlock, Hn.
Qed.

(** The countdown interval leaves the counter and the deadline alone as
    long as the deadline lies ahead. *)
Lemma countdownTick_before now st :
  now < lockoutUntil st ->
  activationAttempts (countdownTick now st) = activationAttempts st
  /\ lockoutUntil (countdownTick now st) = lockoutUntil st.
Proof.
  intros Hnow. unfold countdownTick.
  destruct (0 <? lockoutUntil st); [|split; reflexivity].
  assert (Hdiv : (- (lockoutUntil st - now)) / 1000 < 0)
    by (apply Z.div_lt_upper_bound; lia).
  destruct (Z.max 0 (- (- (lockoutUntil st - now) / 1000)) =? 0) eqn:E.
  - apply Z.eqb_eq in E. lia.
  - destruct st; split; reflexivity.
Qed.

(** One failed attempt made while the gate is open: the counter goes up by
    one, and the lockout deadline is written when the counter reaches 3. *)
Lemma attempt_failed now later reply st :
  trim (licenseKey st) <> "" ->
  isValidLicenseKeyFormat (licenseKey st) = true ->
  lockoutUntil st <= now -> activationAttempts st < 3 ->
  isFailure reply = true ->
  licenseKey (attempt now later reply st) = licenseKey st
  /\ activationAttempts (attempt now later reply st) = activationAttempts st + 1
  /\ lockoutUntil (attempt now later reply st)
     = if 3 <=? activationAttempts st + 1 then later + 60000 else lockoutUntil st.
Proof.
  intros Hblank Hfmt Hlock Hn Hfail.
  unfold attempt, activateLicense.
  apply String.eqb_neq in Hblank. rewrite Hblank, Hfmt. simpl.
  rewrite canAttempt_open by (destruct st; simpl in *; lia). simpl.
  destruct reply as [[|] msg|e]; try discriminate; simpl;
    unfold recordFailure;
    destruct (3 <=? activationAttempts st + 1); destruct st; simpl; auto.
Qed.

End ActivationFacts.

(** C3: starting with a clean counter, three failed activation attempts in
    a row (server rejections or thrown errors alike) leave the counter at 3
    and the lockout deadline 60 seconds after the third failure, with no
    deadline after only two; until that deadline [canAttemptActivation]
    answers false and changes nothing, and the countdown interval leaves
    counter and deadline alone; from the deadline on
    [canAttemptActivation] answers true and resets the counter and the
    deadline to 0. *)
Theorem lockout_after_three_failures :
  forall (st : Activation.t) (t1 l1 t2 l2 t3 l3 : Z)
         (q1 q2 q3 : Activation.Reply),
    Activation.activationAttempts st = 0 ->
    Activation.lockoutUntil st = 0 ->
    trim (Activation.licenseKey st) <> "" ->
    isValidLicenseKeyFormat (Activation.licenseKey st) = true ->
    0 <= t1 -> 0 <= t2 -> 0 <= t3 ->
    Activation.isFailure q1 = true ->
    Activation.isFailure q2 = true ->
    Activation.isFailure q3 = true ->
    let st2 := Activation.attempt t2 l2 q2 (Activation.attempt t1 l1 q1 st) in
    let st3 := Activation.attempt t3 l3 q3 st2 in
    Activation.lockoutUntil st2 = 0
    /\ Activation.activationAttempts st3 = 3
    /\ Activation.lockoutUntil st3 = l3 + 60000
    /\ (forall now : Z, now < l3 + 60000 ->
          Activation.canAttemptActivation now st3 = (false, st3)
          /\ Activation.activationAttempts (Activation.countdownTick now st3) = 3
          /\ Activation.lockoutUntil (Activation.countdownTick now st3)
             = l3 + 60000)
    /\ (forall now : Z, l3 + 60000 <= now ->
          exists st4, Activation.canAttemptActivation now st3 = (true, st4)
            /\ Activation.activationAttempts st4 = 0
            /\ Activation.lockoutUntil st4 = 0).
Proof.
  intros st t1 l1 t2 l2 t3 l3 q1 q2 q3 Hn Hlock Hblank Hfmt Ht1 Ht2 Ht3 F1 F2 F3
    st2 st3.
  destruct (ActivationFacts.attempt_failed t1 l1 q1 st) as (K1 & N1 & L1);
    try assumption; try lia.
  rewrite Hn, Hlock in *. simpl in N1, L1.
  set (s1 := Activation.attempt t1 l1 q1 st) in *.
  destruct (ActivationFacts.attempt_failed t2 l2 q2 s1) as (K2 & N2 & L2);
    try congruence; try lia.
  rewrite N1, L1 in *. simpl in N2, L2. fold st2 in K2, N2, L2.
  destruct (ActivationFacts.attempt_failed t3 l3 q3 st2) as (K3 & N3 & L3);
    try congruence; try lia.
  rewrite N2 in *. simpl in N3, L3. fold st3 in K3, N3, L3.
  split; [exact L2|]. split; [exact N3|]. split; [exact L3|]. split.
  - intros now Hnow.
    split; [apply ActivationFacts.canAttempt_locked; lia|].
    destruct (ActivationFacts.countdownTick_before now st3) as [Hn' Hl']; [lia|].
    rewrite Hn', Hl'. split; assumption.
  - intros now Hnow.
    exists (Activation.setLockoutUntil 0 (Activation.setActivationAttempts 0 st3)).
    split; [apply ActivationFacts.canAttempt_expired; lia|].
    destruct st3; split; reflexivity.
Qed.

Lemma lockout_after_three_failures_witness :
  let st2 :=
    Activation.attempt 2000 2100 (Activation.Threw Activation.AxiosNetworkError)
      (Activation.attempt 1000 1100 (Activation.Response false None) keyed) in
  let st3 :=
    Activation.attempt 3000 3100 (Activation.Threw Activation.AxiosStatus400) st2 in
  Activation.lockoutUntil st2 = 0
  /\ Activation.activationAttempts st3 = 3
  /\ Activation.lockoutUntil st3 = 3100 + 60000
  /\ (forall now : Z, now < 3100 + 60000 ->
        Activation.canAttemptActivation now st3 = (false, st3)
        /\ Activation.activationAttempts (Activation.countdownTick now st3) = 3
        /\ Activation.lockoutUntil (Activation.countdownTick now st3)
           = 3100 + 60000)
  /\ (forall now : Z, 3100 + 60000 <= now ->
        exists st4, Activation.canAttemptActivation now st3 = (true, st4)
          /\ Activation.activationAttempts st4 = 0
          /\ Activation.lockoutUntil st4 = 0).
Proof.
  apply (lockout_after_three_failures keyed 1000 1100 2000 2100 3000 3100
           (Activation.Response false None)
           (Activation.Threw Activation.AxiosNetworkError)
           (Activation.Threw Activation.AxiosStatus400));
    first [reflexivity | lia | vm_compute; discriminate].
Defined.

(** ** Polls that settle after a stop *)

Lemma pollers_stopProcessing reply st :
  pollers (stopProcessing reply st) = pollers st.
Proof. destruct reply, st; reflexivity. Qed.

Lemma allSettled_stop success st :
  allSettled (audioFiles (stopProcessing (StopResponse success) st)).
Proof.
  rewrite audioFiles_stop_response. unfold allSettled.
  induction (audioFiles st) as [|file files IH]; simpl; constructor.
  - apply stopRule_status.
  - exact IH.
Qed.

(** C1, at the input where it fails: [stopProcessing] raises
    [shouldStopPolling] but leaves the pending [pollForUpdates] in place,
    and [pollForUpdates] never reads the flag.  With a backend that
    answers [POST /stop] with [success: false] and goes on working, the
    forced write makes the file [stopped], and the next poll tick turns it
    back into [processing]. *)
Theorem stale_poll_resurrects_status :
  let st1 := step (PollSettled 0 (ProgressResponse (snapshot "Normalizing" (4 # 10)))) running in
  let st2 := step (StopClicked (StopResponse false)) st1 in
  let st3 := step (PollSettled 0 (ProgressResponse (snapshot "Normalizing" (45 # 100)))) st2 in
  shouldStopPolling st2 = true
  /\ pollers st2 = [(-12)%Q]
  /\ status <$> audioFiles st2 = [stopped]
  /\ status <$> audioFiles st3 = [processing]
  /\ ~ allSettled (audioFiles st3).
Proof.
  repeat split; try (vm_compute; reflexivity).
  intros H. vm_compute in H. inversion H as [|file files [Hs|[Hs|Hs]] _];
    discriminate.
Qed.

(** ** Where [newLUFS] is populated *)

Lemma map_fmap {A B} (f : A -> B) (l : list A) : List.map f l = f <$> l.
Proof. reflexivity. Qed.

Lemma Forall_imap_intro {A B} (P : B -> Prop) (Q0 : A -> Prop)
    (f : nat -> A -> B) (l : list A) :
  (forall i x, Q0 x -> P (f i x)) -> Forall Q0 l -> Forall P (imap f l).
Proof.
  intros Hf Hl. revert f Hf.
  induction Hl as [|x l Hx Hl IH]; intros f Hf; simpl; constructor.
  - now apply Hf.
  - apply IH. intros i y. apply Hf.
Qed.

Section RunTarget.
Variable T : Q.

Lemma carriesRunTarget_stopRule file :
  carriesRunTarget T file -> carriesRunTarget T (stopRule file).
Proof.
  unfold carriesRunTarget. intros [H1 H2]. destruct file as [n p s c nl pr].
  destruct s; simpl in *; split; auto; discriminate.
Qed.

Lemma carriesRunTarget_newFile filePath : carriesRunTarget T (newFile filePath).
Proof. unfold carriesRunTarget; simpl. split; [now left|discriminate]. Qed.

Lemma carriesRunTarget_resetRule file : carriesRunTarget T (resetRule file).
Proof. unfold carriesRunTarget; simpl. split; [now left|discriminate]. Qed.

Lemma carriesRunTarget_pollFile data i file :
  carriesRunTarget T file -> carriesRunTarget T (pollFile T data i file).
Proof.
  intros [H1 H2]. unfold pollFile, carriesRunTarget. cbn [status newLUFS].
  match goal with
  | |- context [carriesTarget ?s] => destruct (carriesTarget s)
  end.
  - split; auto.
  - split; [exact H1|discriminate].
Qed.

Lemma carriesRunTarget_pollFiles data files :
  Forall (carriesRunTarget T) files ->
  Forall (carriesRunTarget T) (pollFiles T data files).
Proof.
  intros H. unfold pollFiles.
  destruct (Progress.isProcessing data); simpl.
  - eapply Forall_imap_intro; [|exact H].
    intros i x. apply carriesRunTarget_pollFile.
  - destruct (Progress.processedFiles data); rewrite map_fmap;
      apply Forall_fmap; eapply Forall_impl; try exact H;
      intros file _; unfold carriesRunTarget; simpl; (split; [now right|reflexivity]).
Qed.

Lemma runInvariant_appended st st' added :
  audioFiles st' = audioFiles st ++ List.map newFile added ->
  pollers st' = pollers st ->
  runInvariant T st -> runInvariant T st'.
Proof.
  intros Hf Hp [H1 H2]. split; [|now rewrite Hp].
  rewrite Hf. apply Forall_app. split; [exact H1|].
  rewrite map_fmap. apply Forall_fmap. apply Forall_forall.
  intros filePath _. apply carriesRunTarget_newFile.
Qed.

Lemma filesSelected_appends filePaths st :
  exists added,
    audioFiles (filesSelected filePaths st) = audioFiles st ++ List.map newFile added
    /\ pollers (filesSelected filePaths st) = pollers st.
Proof.
  unfold filesSelected.
  destruct (isTrial (licenseInfoRef st));
    [destruct (availableSlots st <? Z.of_nat (length filePaths));
     [destruct (0 <? availableSlots st)|]|].
  - eexists. destruct st; simpl. split; reflexivity.
  - exists []. destruct st; simpl. now rewrite app_nil_r.
  - eexists. destruct st; simpl. split; reflexivity.
  - eexists. destruct st; simpl. split; reflexivity.
Qed.

Lemma fileDropped_appends filePath st :
  exists added,
    audioFiles (fileDropped filePath st) = audioFiles st ++ List.map newFile added
    /\ pollers (fileDropped filePath st) = pollers st.
Proof.
  unfold fileDropped.
  destruct (isTrial (licenseInfoRef st) && (availableSlots st <=? 0)).
  - exists []. destruct st; simpl. now rewrite app_nil_r.
  - exists [filePath]. destruct st; simpl. split; reflexivity.
Qed.

Lemma fetchLicenseInfo_keeps reply st :
  audioFiles (fetchLicenseInfo reply st) = audioFiles st
  /\ pollers (fetchLicenseInfo reply st) = pollers st.
Proof.
  destruct reply as [license| |]; [|destruct st; split; reflexivity ..].
  unfold fetchLicenseInfo.
  destruct (isTrial (Some license));
    destruct (String.eqb (License.status license) "Trial Expired"
              && (License.remaining_trial_files license <=? 0));
    destruct st; split; reflexivity.
Qed.

Lemma step_runInvariant ev st : runInvariant T st -> runInvariant T (step ev st).
Proof.
  intros [H1 H2]. destruct ev as [k reply|reply|filePaths|filePath| |reply|v|]; simpl.
  - destruct (pollers st !! k) as [target|] eqn:Ek; [|split; assumption].
    assert (target = T) as ->
        by exact (proj1 (Forall_lookup _ _) H2 k target Ek).
    destruct reply as [data|]; simpl; [|split; assumption].
    split.
    + destruct (Progress.isProcessing data); destruct st; simpl in *;
        now apply carriesRunTarget_pollFiles.
    + destruct (Progress.isProcessing data); destruct st; simpl in *;
        [exact H2|now apply Forall_delete].
  - split; [|rewrite pollers_stopProcessing; exact H2].
    destruct reply as [success|].
    + rewrite audioFiles_stop_response, map_fmap. apply Forall_fmap.
      eapply Forall_impl; [exact H1|]. intros file. apply carriesRunTarget_stopRule.
    + now rewrite audioFiles_stop_threw.
  - destruct (filesSelected_appends filePaths st) as (added & Hf & Hp).
    now apply (runInvariant_appended st _ added).
  - destruct (fileDropped_appends filePath st) as (added & Hf & Hp).
    now apply (runInvariant_appended st _ added).
  - destruct st; simpl in *. split; [constructor|exact H2].
  - destruct (fetchLicenseInfo_keeps reply st) as [Hf Hp].
    split; [now rewrite Hf|now rewrite Hp].
  - destruct st; simpl in *. now split.
  - destruct st; simpl in *. now split.
Qed.

Lemma run_runInvariant evs st : runInvariant T st -> runInvariant T (run evs st).
Proof.
  revert st. induction evs as [|ev evs IH]; intros st H; simpl; [exact H|].
  apply IH. now apply step_runInvariant.
Qed.

End RunTarget.

Lemma startProcessing_runInvariant st :
  audioFiles st <> [] -> pollers st = [] ->
  runInvariant (targetLUFS st) (startProcessing ProcessResponse st).
Proof.
  intros Hne Hq. unfold startProcessing.
  destruct (audioFiles st) as [|file files] eqn:E; [congruence|].
  split.
  - destruct st; simpl in *. rewrite E.
    change (Forall (carriesRunTarget targetLUFS0) (resetRule <$> (file :: files))).
    apply Forall_fmap, Forall_forall. intros x _. apply carriesRunTarget_resetRule.
  - destruct st; simpl in *. rewrite Hq. now repeat constructor.
Qed.

(** C5, as the code has it: from an acknowledged [startProcessing] made
    while no earlier poll loop is pending, whatever polls, stops, file
    selections and clearings, license refreshes, target changes and
    renders follow, every populated [newLUFS] is the target loudness the
    run was started with, and every [finalizing], [normalized] or
    [completed] entry has it; a poll writes the target on the entries it
    maps to one of these three statuses and keeps the earlier [newLUFS] on
    all others. *)
Theorem newLUFS_is_run_target :
  forall (st : App) (evs : list Event),
    audioFiles st <> [] ->
    pollers st = [] ->
    Forall (carriesRunTarget (targetLUFS st))
      (audioFiles (run evs (startProcessing ProcessResponse st)))
    /\ (forall (data : Progress.t) (i : nat) (file : AudioFile),
          newLUFS (pollFile (targetLUFS st) data i file)
          = if carriesTarget (status (pollFile (targetLUFS st) data i file))
            then Some (targetLUFS st) else newLUFS file).
Proof.
  intros st evs Hne Hq. split; [|reflexivity].
  apply (run_runInvariant (targetLUFS st) evs).
  now apply startProcessing_runInvariant.
Qed.

Lemma newLUFS_is_run_target_witness :
  Forall (carriesRunTarget (targetLUFS oneFile))
    (audioFiles
       (run [PollSettled 0 (ProgressResponse (snapshot "Normalizing" (97 # 100)));
             TargetChosen (-16)%Q;
             PollSettled 0 (ProgressResponse (snapshot "error" (97 # 100)));
             StopClicked StopThrew]
          (startProcessing ProcessResponse oneFile)))
  /\ (forall (data : Progress.t) (i : nat) (file : AudioFile),
        newLUFS (pollFile (targetLUFS oneFile) data i file)
        = if carriesTarget (status (pollFile (targetLUFS oneFile) data i file))
          then Some (targetLUFS oneFile) else newLUFS file).
Proof.
  apply (newLUFS_is_run_target oneFile).
  - vm_compute. discriminate.
  - reflexivity.
Defined.

(** C5 as stated fails: a file that reached [finalizing] and is then
    reported with the token ["error"] ends up with status [error] and a
    populated [newLUFS]. *)
Lemma newLUFS_outlives_finalizing :
  let st1 := step (PollSettled 0 (ProgressResponse (snapshot "Normalizing" (97 # 100)))) running in
  let st2 := step (PollSettled 0 (ProgressResponse (snapshot "error" (97 # 100)))) st1 in
  (status <$> audioFiles st2 = [error]
   /\ newLUFS <$> audioFiles st2 = [Some (-12)%Q])
  /\ ~ populatedOnlyWhenFinal (audioFiles st2).
Proof.
  split; [split; vm_compute; reflexivity|].
  intros H. vm_compute in H. inversion H as [|file files Hfile _].
  specialize (Hfile (ex_intro _ _ eq_refl)). discriminate.
Qed.

(** ** Stored progress *)

Lemma length_pollFiles target d files :
  length (pollFiles target d files) = length files.
Proof.
  unfold pollFiles. destruct (Progress.isProcessing d); simpl.
  - apply length_imap.
  - destruct (Progress.processedFiles d); apply List.length_map.
Qed.

(** One poll stores, for every listed file, the number that the snapshot
    reports for its index. *)
Lemma storedProgress_pollFiles target d files i :
  (i < length files)%nat ->
  sameNumber (storedProgress i (pollFiles target d files)) (Some (reported i d)).
Proof.
  intros Hi. apply lookup_lt_is_Some in Hi. destruct Hi as [file Hfile].
  unfold storedProgress, reported, pollFiles.
  destruct (Progress.isProcessing d); simpl.
  - rewrite list_lookup_imap, Hfile. simpl. apply progressAt_lookup.
  - destruct (Progress.processedFiles d); rewrite map_fmap, list_lookup_fmap, Hfile;
      simpl; reflexivity.
Qed.

Lemma storedProgress_pollTrace target ds : forall files i,
  (i < length files)%nat ->
  Forall2 sameNumber (storedProgress i <$> pollTrace target ds files)
    ((fun d => Some (reported i d)) <$> ds).
Proof.
  induction ds as [|d ds IH]; intros files i Hi; [constructor|].
  cbn [pollTrace]. rewrite !fmap_cons. constructor.
  - now apply storedProgress_pollFiles.
  - apply IH. rewrite length_pollFiles. exact Hi.
Qed.

Lemma withinUnit_sameNumber a b : sameNumber a b -> withinUnit b -> withinUnit a.
Proof.
  destruct a as [x|], b as [y|]; simpl; try tauto.
  intros E [H0 H1]. rewrite E. now split.
Qed.

Lemma nonDecreasing_sameNumber l l' :
  Forall2 sameNumber l l' -> nonDecreasing l' -> nonDecreasing l.
Proof.
  induction 1 as [|a b l l' Hab Hrest IH]; [trivial|].
  intros [Hhead Htail]. split; [|now apply IH].
  destruct a as [x|]; [|exact I].
  destruct Hrest as [|a2 b2 l2 l2' Hab2 _]; [exact I|].
  destruct a2 as [y|]; [|exact I].
  destruct b as [x'|]; [|contradiction].
  destruct b2 as [y'|]; [|contradiction].
  simpl in Hab, Hab2. rewrite Hab, Hab2. exact Hhead.
Qed.

(** C6, as the code has it: the progress stored for a listed file after
    each poll of a series is the number that the poll's snapshot holds for
    its index in [fileProgress] (0 when it holds none, 1 when the snapshot
    says the run has ended); so the stored values are non-decreasing, and
    within [0,1], whenever the values the backend reports are. *)
Theorem progress_mirrors_backend :
  forall (target : Q) (files : list AudioFile) (i : nat) (ds : list Progress.t),
    (i < length files)%nat ->
    let stored := storedProgress i <$> pollTrace target ds files in
    let fromBackend := (fun d => Some (reported i d)) <$> ds in
    Forall2 sameNumber stored fromBackend
    /\ (nonDecreasing fromBackend -> nonDecreasing stored)
    /\ (Forall withinUnit fromBackend -> Forall withinUnit stored).
Proof.
  intros target files i ds Hi stored fromBackend.
  assert (E : Forall2 sameNumber stored fromBackend)
    by now apply storedProgress_pollTrace.
  split; [exact E|]. split.
  - now apply nonDecreasing_sameNumber.
  - intros Hall. clear - E Hall.
    induction E as [|a b l l' Hab _ IH]; [constructor|].
    apply Forall_cons in Hall as [Hb Hall]. constructor.
    + now apply (withinUnit_sameNumber a b).
    + now apply IH.
Qed.

Lemma progress_mirrors_backend_witness :
  let ds := [snapshot "Analyzing" (3 # 10); snapshot "Normalizing" (97 # 100)] in
  let stored := storedProgress 0 <$> pollTrace (-12) ds (audioFiles running) in
  let fromBackend := (fun d => Some (reported 0 d)) <$> ds in
  Forall2 sameNumber stored fromBackend
  /\ (nonDecreasing fromBackend -> nonDecreasing stored)
  /\ (Forall withinUnit fromBackend -> Forall withinUnit stored).
Proof.
  apply (progress_mirrors_backend (-12)%Q (audioFiles running) 0%nat
           [snapshot "Analyzing" (3 # 10); snapshot "Normalizing" (97 # 100)]).
  vm_compute. lia.
Defined.

Example reported_sample :
  reported 0 (snapshot "Analyzing" (3 # 10)) = (3 # 10)%Q
  /\ reported 1 (snapshot "Analyzing" (3 # 10)) = 0%Q
  /\ reported 0 (Progress.mk false [] [3 # 10]%Q ∅ []) = 1%Q.
Proof. repeat split. Qed.

(** C6 as stated fails: the poller stores a smaller value when the backend
    reports one, and a value above 1 when the backend reports that. *)
Lemma stored_progress_can_drop :
  let ds := [snapshot "Analyzing" (5 # 10); snapshot "Analyzing" (3 # 10);
             snapshot "Analyzing" (3 # 2)] in
  let stored := storedProgress 0 <$> pollTrace (-12) ds (audioFiles running) in
  stored = [Some (5 # 10)%Q; Some (3 # 10)%Q; Some (3 # 2)%Q]
  /\ ~ nonDecreasing stored
  /\ ~ Forall withinUnit stored.
Proof.
  intros ds stored.
  assert (E : stored = [Some (5 # 10)%Q; Some (3 # 10)%Q; Some (3 # 2)%Q])
    by (vm_compute; reflexivity).
  rewrite E. split; [reflexivity|]. split.
  - intros [Hdrop _]. apply Hdrop. reflexivity.
  - intros H.
    apply Forall_cons in H as [_ H]. apply Forall_cons in H as [_ H].
    apply Forall_cons in H as [[_ Habove] _]. apply Habove. reflexivity.
Qed.

(** * Further properties of the session logic *)

(** ** Start, stop and the end of a run *)

Lemma audioFiles_startProcessing reply st :
  audioFiles (startProcessing reply st) = resetRule <$> audioFiles st.
Proof.
  unfold startProcessing. destruct (audioFiles st) as [|file files] eqn:E.
  - now rewrite audioFiles_alert, E.
  - destruct reply; destruct st; simpl in *; now rewrite E.
Qed.

(** Starting a run and stopping it before any poll has settled leaves
    every listed file [stopped] at progress 0 with no loudness values,
    whatever the entries were before and however [POST /process] settled,
    provided [POST /stop] returns a response. *)
Theorem start_then_stop_all_stopped :
  forall (st : App) (reply : ProcessReply) (success : bool),
    audioFiles (stopProcessing (StopResponse success) (startProcessing reply st))
    = (fun file => mkAudioFile (name file) (path file) stopped None None (Some 0%Q))
        <$> audioFiles st.
Proof.
  intros st reply success.
  rewrite audioFiles_stop_response, audioFiles_startProcessing, map_fmap.
  rewrite <- list_fmap_compose. reflexivity.
Qed.



Lemma finished_finishWithResults target pfs file :
  finished target (finishWithResults target pfs file).
Proof. unfold finished; simpl. repeat split; eauto. Qed.

Lemma finished_finishFallback target file :
  finished target (finishFallback target file).
Proof. unfold finished; simpl. repeat split; eauto. Qed.

(** When a poll learns that the run has ended, every listed entry becomes
    [completed] at progress 1 with the closure's target as [newLUFS] and
    some number as [currentLUFS], whatever its status was (a [stopped] or
    [error] entry included); the list keeps its length, the processing
    flag is lowered and the closure leaves the pending ones. *)
Theorem run_end_completes_every_entry :
  forall (st : App) (k : nat) (target : Q) (data : Progress.t),
    pollers st !! k = Some target ->
    Progress.isProcessing data = false ->
    let st' := step (PollSettled k (ProgressResponse data)) st in
    Forall (finished target) (audioFiles st')
    /\ length (audioFiles st') = length (audioFiles st)
    /\ isProcessing st' = false
    /\ pollers st' = delete k (pollers st).
Proof.
  intros st k target data Hk Hend st'. subst st'. simpl. rewrite Hk.
  unfold pollForUpdates. rewrite Hend.
  assert (Hfiles : audioFiles
            (setPollers (delete k (pollers st))
               (setIsProcessing false (setAudioFiles (pollFiles target data) st)))
          = pollFiles target data (audioFiles st)) by (destruct st; reflexivity).
  rewrite Hfiles. split; [|split; [apply length_pollFiles|destruct st; split; reflexivity]].
  unfold pollFiles. rewrite Hend. simpl.
  destruct (Progress.processedFiles data); rewrite map_fmap; apply Forall_fmap;
    apply Forall_forall; intros file _.
  - apply finished_finishFallback.
  - apply finished_finishWithResults.
Qed.

Lemma run_end_completes_every_entry_witness :
  let data := Progress.mk false [] [] ∅ [] in
  let st := step (StopClicked (StopResponse true)) running in
  let st' := step (PollSettled 0 (ProgressResponse data)) st in
  Forall (finished (-12)) (audioFiles st')
  /\ length (audioFiles st') = length (audioFiles st)
  /\ isProcessing st' = false
  /\ pollers st' = delete 0%nat (pollers st).
Proof.
  apply (run_end_completes_every_entry
           (step (StopClicked (StopResponse true)) running) 0 (-12)%Q
           (Progress.mk false [] [] ∅ [])); reflexivity.
Defined.

(** ** What the events do to the entries already listed *)

Lemma Forall2_imap_r {A B} (R : A -> B -> Prop) (g : nat -> A -> B) (l : list A) :
  (forall i x, R x (g i x)) -> Forall2 R l (imap g l).
Proof.
  revert g. induction l as [|x l IH]; intros g Hg; simpl; constructor.
  - apply Hg.
  - apply IH. intros i y. apply Hg.
Qed.

Lemma Forall2_fmap_self {A B} (R : A -> B -> Prop) (g : A -> B) (l : list A) :
  (forall x, R x (g x)) -> Forall2 R l (g <$> l).
Proof. intros Hg. induction l; simpl; constructor; auto. Qed.

Lemma updates_pollFiles target data files :
  Forall2 updates files (pollFiles target data files).
Proof.
  unfold pollFiles. destruct (Progress.isProcessing data) eqn:E; simpl.
  - apply Forall2_imap_r. intros i x. now apply updates_poll.
  - destruct (Progress.processedFiles data); rewrite map_fmap;
      apply Forall2_fmap_self; intros x; constructor.
Qed.

Lemma updates_refl_list files : Forall2 updates files files.
Proof. induction files; constructor; [constructor|assumption]. Qed.

(** Every event but Clear rewrites the listed entries one by one, in
    place, and may append new ones. *)
Lemma step_shape ev st :
  ev <> FilesCleared ->
  exists updated added,
    audioFiles (step ev st) = updated ++ (newFile <$> added)
    /\ Forall2 updates (audioFiles st) updated.
Proof.
  intros Hev.
  assert (Hsame : forall st', audioFiles st' = audioFiles st ->
            exists updated added,
              audioFiles st' = updated ++ (newFile <$> added)
              /\ Forall2 updates (audioFiles st) updated).
  { intros st' E. exists (audioFiles st), []. rewrite E, app_nil_r.
    split; [reflexivity|]. apply updates_refl_list. }
  destruct ev as [k reply|reply|filePaths|filePath| |reply|v|]; simpl;
    try congruence.
  - destruct (pollers st !! k) as [target|]; [|now apply Hsame].
    destruct reply as [data|]; simpl; [|now apply Hsame].
    exists (pollFiles target data (audioFiles st)), []. rewrite app_nil_r.
    split; [|apply updates_pollFiles].
    destruct (Progress.isProcessing data); destruct st; reflexivity.
  - destruct reply as [success|].
    + exists (stopRule <$> audioFiles st), []. rewrite app_nil_r.
      split; [apply audioFiles_stop_response|].
      apply Forall2_fmap_self. intros x. constructor.
    + apply Hsame. apply audioFiles_stop_threw.
  - destruct (filesSelected_appends filePaths st) as (added & Hf & _).
    exists (audioFiles st), added. split; [exact Hf|].
    apply updates_refl_list.
  - destruct (fileDropped_appends filePath st) as (added & Hf & _).
    exists (audioFiles st), added. split; [exact Hf|].
    apply updates_refl_list.
  - apply Hsame. apply (fetchLicenseInfo_keeps reply st).
  - apply Hsame. destruct st; reflexivity.
  - apply Hsame. destruct st; reflexivity.
Qed.

Lemma step_lookup (R : AudioFile -> AudioFile -> Prop) ev st i file :
  (forall f f', updates f f' -> R f f') ->
  ev <> FilesCleared ->
  audioFiles st !! i = Some file ->
  exists file', audioFiles (step ev st) !! i = Some file' /\ R file file'.
Proof.
  intros HR Hev Hi.
  destruct (step_shape ev st Hev) as (updated & added & E & H2).
  destruct (Forall2_lookup_l _ _ _ _ _ H2 Hi) as (file' & Hi' & Hu).
  exists file'. split; [|now apply HR].
  rewrite E. now apply lookup_app_l_Some.
Qed.

Lemma updates_sameFile f f' : updates f f' -> sameFile f f'.
Proof.
  intros H. destruct H as [f|f|target data index f _|target pfs f|target f];
    try (split; reflexivity).
  destruct f as [n p s c nl pr]; destruct s; split; reflexivity.
Qed.






Lemma act_lookup (R : AudioFile -> AudioFile -> Prop) a st i file :
  (forall f f', updates f f' -> R f f') ->
  (forall f, R f (resetRule f)) ->
  clearsList a = false ->
  audioFiles st !! i = Some file ->
  exists file', audioFiles (act a st) !! i = Some file' /\ R file file'.
Proof.
  intros HR Hreset Ha Hi. destruct a as [ev|reply]; simpl.
  - apply step_lookup; try assumption. intros ->. discriminate.
  - exists (resetRule file). split; [|apply Hreset].
    rewrite audioFiles_startProcessing, list_lookup_fmap, Hi. reflexivity.
Qed.

(** Entries are never removed, reordered or renamed short of the Clear
    button: through any starts, polls, stops, selections, refreshes and
    renders, the entry at an index keeps its name and its path. *)
Theorem entries_keep_their_place :
  forall (acts : list Action) (st : App) (i : nat) (file : AudioFile),
    Forall (fun a => clearsList a = false) acts ->
    audioFiles st !! i = Some file ->
    exists file', audioFiles (play acts st) !! i = Some file'
      /\ sameFile file file'.
Proof.
  induction acts as [|a acts IH]; intros st i file Hacts Hi; simpl.
  - exists file. split; [exact Hi|split; reflexivity].
  - apply Forall_cons in Hacts as [Ha Hacts].
    destruct (act_lookup sameFile a st i file updates_sameFile
                (fun f => conj eq_refl eq_refl) Ha Hi)
      as (file1 & Hi1 & [Hn1 Hp1]).
    destruct (IH (act a st) i file1 Hacts Hi1) as (file' & Hi' & [Hn Hp]).
    exists file'. split; [exact Hi'|]. split; congruence.
Qed.

Lemma entries_keep_their_place_witness :
  exists file',
    audioFiles
      (play [StartClicked ProcessResponse;
             Happens (FilesSelected ["/music/b.wav"]);
             Happens (PollSettled 0 (ProgressResponse (snapshot "error" 0)));
             Happens (StopClicked StopThrew)]
         oneFile) !! 0%nat = Some file'
    /\ sameFile (mkAudioFile "a.mp3" "/music/a.mp3" pending None None None) file'.
Proof.
  apply (entries_keep_their_place
           [StartClicked ProcessResponse;
            Happens (FilesSelected ["/music/b.wav"]);
            Happens (PollSettled 0 (ProgressResponse (snapshot "error" 0)));
            Happens (StopClicked StopThrew)]
           oneFile 0%nat
           (mkAudioFile "a.mp3" "/music/a.mp3" pending None None None)).
  - repeat constructor.
  - reflexivity.
Defined.

Lemma mapStatus_live_not_normalized tok p l : mapStatus true tok p l <> normalized.
Proof.
  unfold mapStatus. simpl negb. rewrite andb_false_r.
  repeat case_match; discriminate.
Qed.

Lemma updates_not_normalized f f' :
  updates f f' -> status f <> normalized -> status f' <> normalized.
Proof.
  intros H Hs. destruct H as [f|f|target data index f Hlive|target pfs f|target f];
    simpl; try discriminate; try assumption.
  - destruct f as [n p s c nl pr]; destruct s; simpl in *; congruence.
  - rewrite Hlive. apply mapStatus_live_not_normalized.
Qed.

Lemma noneNormalized_step ev st :
  noneNormalized (audioFiles st) -> noneNormalized (audioFiles (step ev st)).
Proof.
  intros H.
  assert (Hcases : ev = FilesCleared \/ ev <> FilesCleared)
    by (destruct ev; (now left) || (right; discriminate)).
  destruct Hcases as [->|Hev].
  - destruct st; simpl. constructor.
  - destruct (step_shape ev st Hev) as (updated & added & E & H2).
    rewrite E. apply Forall_app. split.
    + clear E. induction H2 as [|f f' l l' Hu _ IH]; [constructor|].
      apply Forall_cons in H as [Hf H]. constructor; [|now apply IH].
      now apply (updates_not_normalized f f').
    + apply Forall_fmap, Forall_forall. intros x _. discriminate.
Qed.

(** The status [normalized] is never assigned: the only branch that maps
    to it asks for a snapshot that is not processing, inside the branch
    for snapshots that are.  If no listed entry is [normalized], none is
    after any series of starts, polls, stops, selections, clearings,
    refreshes and renders. *)
Theorem normalized_is_never_assigned :
  forall (acts : list Action) (st : App),
    noneNormalized (audioFiles st) ->
    noneNormalized (audioFiles (play acts st)).
Proof.
  induction acts as [|a acts IH]; intros st H; simpl; [exact H|].
  apply IH. destruct a as [ev|reply]; simpl.
  - now apply noneNormalized_step.
  - rewrite audioFiles_startProcessing. apply Forall_fmap, Forall_forall.
    intros x _. discriminate.
Qed.

Lemma normalized_is_never_assigned_witness :
  noneNormalized
    (audioFiles
       (play [StartClicked ProcessResponse;
              Happens (PollSettled 0 (ProgressResponse
                         (Progress.mk true [] [1%Q] ∅ [Some (Current.mk (Some (-9)%Q))])))]
          oneFile)).
Proof.
  apply (normalized_is_never_assigned
           [StartClicked ProcessResponse;
            Happens (PollSettled 0 (ProgressResponse
                       (Progress.mk true [] [1%Q] ∅ [Some (Current.mk (Some (-9)%Q))])))]
           oneFile).
  repeat constructor. discriminate.
Defined.

(** A listed file the backend says nothing about (no [fileProgress]
    entry, no token, no [currentFiles] entry at its index, as for a file
    added after the run began) is shown at progress 0, as [analyzed] when
    it has a non-zero loudness reading and as [pending] otherwise, whatever
    its status was; its loudness values are left alone. *)
Theorem poll_beyond_backend_arrays :
  forall (target : Q) (data : Progress.t) (i : nat) (file : AudioFile),
    Progress.fileProgress data !! i = None ->
    Progress.fileStatuses data !! pretty i = None ->
    Progress.currentFiles data !! i = None ->
    pollFile target data i file
    = {| name := name file;
         path := path file;
         status := if truthyNum (currentLUFS file) then analyzed else pending;
         progress := Some 0%Q;
         currentLUFS := currentLUFS file;
         newLUFS := newLUFS file |}.
Proof.
  intros target data i file Hp Ht Hc.
  unfold pollFile, progressAt, statusTokenAt, realCurrentLUFSAt.
  rewrite Hp, Ht, Hc. simpl. unfold orNum. simpl.
  unfold mapStatus. simpl.
  destruct (truthyNum (currentLUFS file)); reflexivity.
Qed.

Lemma poll_beyond_backend_arrays_witness :
  pollFile (-12) (snapshot "Normalizing" (1 # 2)) 1
    (mkAudioFile "b.wav" "/music/b.wav" stopped (Some (-9)%Q) None (Some 0%Q))
  = mkAudioFile "b.wav" "/music/b.wav" analyzed (Some (-9)%Q) None (Some 0%Q).
Proof.
  apply (poll_beyond_backend_arrays (-12)%Q (snapshot "Normalizing" (1 # 2)) 1
           (mkAudioFile "b.wav" "/music/b.wav" stopped (Some (-9)%Q) None (Some 0%Q)));
    reflexivity.
Defined.

(** ** Quota guard, continued *)

Lemma refs_filesSelected filePaths st :
  licenseInfoRef (filesSelected filePaths st) = licenseInfoRef st
  /\ audioFilesRef (filesSelected filePaths st) = audioFilesRef st
  /\ remainingTrialFilesRef (filesSelected filePaths st) = remainingTrialFilesRef st.
Proof.
  unfold filesSelected.
  destruct (isTrial (licenseInfoRef st));
    [destruct (availableSlots st <? Z.of_nat (length filePaths));
     [destruct (0 <? availableSlots st)|]|];
    destruct st; repeat split.
Qed.

(** With the refs in step with the state, a trial session never grows
    past its quota: after [files-selected] or [file-dropped] the list is
    no longer than the larger of its earlier length and the remaining
    trial files. *)
Theorem trial_list_stays_within_quota :
  forall (st : App) (P : list string) (p : string),
    isTrial (licenseInfoRef st) = true ->
    audioFilesRef st = audioFiles st ->
    let bound := Z.max (Z.of_nat (length (audioFiles st))) (remainingTrialFilesRef st) in
    Z.of_nat (length (audioFiles (filesSelected P st))) <= bound
    /\ Z.of_nat (length (audioFiles (fileDropped p st))) <= bound.
Proof.
  intros st P p Htrial Href bound. subst bound. split.
  - unfold filesSelected. rewrite Htrial.
    destruct (availableSlots st <? Z.of_nat (length P)) eqn:Efit;
      [destruct (0 <? availableSlots st) eqn:Epos|].
    + rewrite audioFiles_setAudioFiles, audioFiles_alert.
      rewrite List.length_app, List.length_map, length_take.
      unfold availableSlots in *. rewrite Href in *. lia.
    + rewrite audioFiles_setShowUpgradeModal, audioFiles_alert. lia.
    + apply Z.ltb_ge in Efit. rewrite audioFiles_setAudioFiles.
      rewrite List.length_app, List.length_map.
      unfold availableSlots in *. rewrite Href in *. lia.
  - unfold fileDropped. rewrite Htrial. simpl.
    destruct (availableSlots st <=? 0) eqn:Enone.
    + rewrite audioFiles_setShowUpgradeModal, audioFiles_alert. lia.
    + apply Z.leb_gt in Enone. rewrite audioFiles_setAudioFiles.
      rewrite List.length_app. simpl.
      unfold availableSlots in *. rewrite Href in *. lia.
Qed.

Lemma trial_list_stays_within_quota_witness :
  let bound := Z.max (Z.of_nat (length (audioFiles trialApp)))
                 (remainingTrialFilesRef trialApp) in
  Z.of_nat (length (audioFiles
                      (filesSelected ["/m/b.wav"; "/m/c.wav"; "/m/d.wav"] trialApp)))
  <= bound
  /\ Z.of_nat (length (audioFiles (fileDropped "/m/e.wav" trialApp))) <= bound.
Proof.
  apply (trial_list_stays_within_quota trialApp
           ["/m/b.wav"; "/m/c.wav"; "/m/d.wav"] "/m/e.wav");
    reflexivity.
Defined.

(** The handlers count the files through [audioFilesRef], which only a
    render brings up to date: two selections that arrive before the next
    render are both measured against the same count, so each is admitted
    in full if it fits the slots on its own, even when together they pass
    the quota. *)
Theorem selections_before_a_render_share_the_count :
  forall (st : App) (P1 P2 : list string),
    isTrial (licenseInfoRef st) = true ->
    Z.of_nat (length P1) <= availableSlots st ->
    Z.of_nat (length P2) <= availableSlots st ->
    exists appended,
      audioFiles (filesSelected P2 (filesSelected P1 st)) = audioFiles st ++ appended
      /\ Forall2 offeredEntry (P1 ++ P2) appended.
Proof.
  intros st P1 P2 Htrial H1 H2.
  destruct (refs_filesSelected P1 st) as (Hl & Ha & Hr).
  assert (Hslots : availableSlots (filesSelected P1 st) = availableSlots st)
    by (unfold availableSlots; now rewrite Ha, Hr).
  assert (Hfirst : audioFiles (filesSelected P1 st)
                   = audioFiles st ++ List.map newFile P1).
  { unfold filesSelected. rewrite Htrial.
    apply Z.ltb_ge in H1. rewrite H1. apply audioFiles_setAudioFiles. }
  exists (List.map newFile (P1 ++ P2)). split; [|apply offeredEntries_newFile].
  unfold filesSelected at 1. rewrite Hl, Htrial, Hslots.
  apply Z.ltb_ge in H2. rewrite H2.
  rewrite audioFiles_setAudioFiles, Hfirst, List.map_app. now rewrite <- app_assoc.
Qed.

Lemma selections_before_a_render_share_the_count_witness :
  exists appended,
    audioFiles (filesSelected ["/m/d.wav"; "/m/e.wav"]
                  (filesSelected ["/m/b.wav"; "/m/c.wav"] trialApp))
    = audioFiles trialApp ++ appended
    /\ Forall2 offeredEntry (["/m/b.wav"; "/m/c.wav"] ++ ["/m/d.wav"; "/m/e.wav"])
         appended.
Proof.
  apply (selections_before_a_render_share_the_count trialApp
           ["/m/b.wav"; "/m/c.wav"] ["/m/d.wav"; "/m/e.wav"]).
  - reflexivity.
  - vm_compute. discriminate.
  - vm_compute. discriminate.
Defined.

(** A dropped file under a trial snapshot is appended when at least one
    slot is left and nothing is raised; with no slot left the list is
    untouched, the quota alert is shown and the upgrade modal opens. *)
Theorem trial_drop_needs_a_slot :
  forall (st : App) (p : string),
    isTrial (licenseInfoRef st) = true ->
    (0 < availableSlots st ->
     exists entry,
       audioFiles (fileDropped p st) = audioFiles st ++ [entry]
       /\ offeredEntry p entry
       /\ alerts (fileDropped p st) = alerts st
       /\ showUpgradeModal (fileDropped p st) = showUpgradeModal st)
    /\ (availableSlots st = 0 ->
        audioFiles (fileDropped p st) = audioFiles st
        /\ alerts (fileDropped p st)
           = alerts st ++ [AlertQuotaExhausted (remainingTrialFilesRef st)]
        /\ showUpgradeModal (fileDropped p st) = true).
Proof.
  intros st p Htrial. unfold fileDropped. rewrite Htrial. simpl. split.
  - intros Hpos. apply Z.leb_gt in Hpos. rewrite Hpos.
    rewrite audioFiles_setAudioFiles, alerts_setAudioFiles,
      showUpgradeModal_setAudioFiles.
    exists (newFile p). split; [reflexivity|].
    split; [apply offeredEntry_newFile|]. split; reflexivity.
  - intros Hz. rewrite Hz. simpl.
    rewrite audioFiles_setShowUpgradeModal, audioFiles_alert,
      alerts_setShowUpgradeModal, alerts_alert, showUpgradeModal_set.
    repeat split.
Qed.

Lemma trial_drop_needs_a_slot_witness :
  (0 < availableSlots trialApp ->
   exists entry,
     audioFiles (fileDropped "/m/e.wav" trialApp) = audioFiles trialApp ++ [entry]
     /\ offeredEntry "/m/e.wav" entry
     /\ alerts (fileDropped "/m/e.wav" trialApp) = alerts trialApp
     /\ showUpgradeModal (fileDropped "/m/e.wav" trialApp)
        = showUpgradeModal trialApp)
  /\ (availableSlots trialApp = 0 ->
      audioFiles (fileDropped "/m/e.wav" trialApp) = audioFiles trialApp
      /\ alerts (fileDropped "/m/e.wav" trialApp)
         = alerts trialApp ++ [AlertQuotaExhausted (remainingTrialFilesRef trialApp)]
      /\ showUpgradeModal (fileDropped "/m/e.wav" trialApp) = true).
Proof.
  apply (trial_drop_needs_a_slot trialApp "/m/e.wav"). reflexivity.
Defined.

(** When [GET /license/status] throws, [fetchLicenseInfo] sets the
    snapshot to null and touches nothing else of the quota; from the next
    render on both handlers append a [pending] entry for every offered
    path and raise nothing, whatever the quota was before. *)
Theorem failed_license_fetch_lifts_the_quota :
  forall (st : App) (P : list string) (p : string),
    let st0 := fetchLicenseInfo LicenseThrew st in
    let st1 := syncRefs st0 in
    (licenseInfo st0 = None
     /\ remainingTrialFiles st0 = remainingTrialFiles st
     /\ licenseInfoRef st1 = None)
    /\ (exists appended,
          audioFiles (filesSelected P st1) = audioFiles st ++ appended
          /\ Forall2 offeredEntry P appended
          /\ showUpgradeModal (filesSelected P st1) = showUpgradeModal st)
    /\ (exists entry,
          audioFiles (fileDropped p st1) = audioFiles st ++ [entry]
          /\ offeredEntry p entry
          /\ showUpgradeModal (fileDropped p st1) = showUpgradeModal st).
Proof.
  intros st P p st0 st1. subst st1 st0. split; [destruct st; repeat split|].
  split.
  - exists (List.map newFile P). split; [|split; [apply offeredEntries_newFile|]];
      unfold filesSelected; destruct st; reflexivity.
  - exists (newFile p). split; [|split; [apply offeredEntry_newFile|]];
      unfold fileDropped; destruct st; reflexivity.
Qed.

Lemma fetched_license_refs license st :
  let st1 := syncRefs (fetchLicenseInfo (LicenseOk license) st) in
  audioFiles st1 = audioFiles st
  /\ audioFilesRef st1 = audioFiles st
  /\ licenseInfoRef st1 = Some license
  /\ remainingTrialFilesRef st1
     = (if isTrial (Some license) then License.remaining_trial_files license else 999)
  /\ alerts st1 = alerts st.
Proof.
  unfold fetchLicenseInfo.
  destruct (isTrial (Some license));
    destruct (String.eqb (License.status license) "Trial Expired"
              && (License.remaining_trial_files license <=? 0));
    destruct st; repeat split.
Qed.

(** End to end: once a snapshot whose status starts with ["Trial"] has
    been fetched and rendered, a selection adds the first
    [max(0, remaining_trial_files - listed)] offered paths and no more. *)
Theorem fetched_trial_snapshot_limits_selection :
  forall (st : App) (license : License.t) (P : list string),
    String.prefix "Trial" (License.status license) = true ->
    let st1 := syncRefs (fetchLicenseInfo (LicenseOk license) st) in
    let slots := Z.max 0 (License.remaining_trial_files license
                          - Z.of_nat (length (audioFiles st))) in
    exists appended,
      audioFiles (filesSelected P st1) = audioFiles st ++ appended
      /\ Forall2 offeredEntry (take (Z.to_nat slots) P) appended.
Proof.
  intros st license P Htrial st1 slots.
  exists (List.map newFile (take (Z.to_nat slots) P)).
  split; [|apply offeredEntries_newFile].
  destruct (fetched_license_refs license st) as (Hf & Har & Hl & Hr & _).
  fold st1 in Hf, Har, Hl, Hr. rewrite isTrial_Some, Htrial in Hr.
  assert (Hslots : availableSlots st1 = slots)
    by (unfold availableSlots, slots; now rewrite Hr, Har).
  unfold filesSelected. rewrite Hl, isTrial_Some, Htrial, Hslots.
  destruct (slots <? Z.of_nat (length P)) eqn:Efit;
    [destruct (0 <? slots) eqn:Epos|].
  - now rewrite audioFiles_setAudioFiles, audioFiles_alert, Hf.
  - apply Z.ltb_ge in Epos.
    rewrite audioFiles_setShowUpgradeModal, audioFiles_alert, Hf.
    replace (Z.to_nat slots) with 0%nat by lia. simpl. now rewrite app_nil_r.
  - apply Z.ltb_ge in Efit. rewrite audioFiles_setAudioFiles, Hf.
    rewrite take_ge by lia. reflexivity.
Qed.

Lemma fetched_trial_snapshot_limits_selection_witness :
  let license := License.mk "Trial (3 left)" "" 7 10 3 true in
  let st1 := syncRefs (fetchLicenseInfo (LicenseOk license) oneFile) in
  let slots := Z.max 0 (License.remaining_trial_files license
                        - Z.of_nat (length (audioFiles oneFile))) in
  exists appended,
    audioFiles (filesSelected ["/m/b.wav"; "/m/c.wav"; "/m/d.wav"] st1)
    = audioFiles oneFile ++ appended
    /\ Forall2 offeredEntry
         (take (Z.to_nat slots) ["/m/b.wav"; "/m/c.wav"; "/m/d.wav"]) appended.
Proof.
  apply (fetched_trial_snapshot_limits_selection oneFile
           (License.mk "Trial (3 left)" "" 7 10 3 true)
           ["/m/b.wav"; "/m/c.wav"; "/m/d.wav"]).
  reflexivity.
Defined.

(** An expired trial admits nothing: once a snapshot with status
    ["Trial Expired"] and no remaining files has been fetched and
    rendered, the expiry modal is up, and every non-empty selection and
    every dropped file leaves the list as it was and opens the upgrade
    modal. *)
Theorem expired_trial_admits_nothing :
  forall (st : App) (license : License.t) (P : list string) (p : string),
    License.status license = "Trial Expired" ->
    License.remaining_trial_files license <= 0 ->
    P <> [] ->
    let st1 := syncRefs (fetchLicenseInfo (LicenseOk license) st) in
    showTrialExpired st1 = true
    /\ audioFiles (filesSelected P st1) = audioFiles st
    /\ showUpgradeModal (filesSelected P st1) = true
    /\ audioFiles (fileDropped p st1) = audioFiles st
    /\ showUpgradeModal (fileDropped p st1) = true.
Proof.
  intros st license P p Hstatus Hrem HP st1.
  assert (Htrial : isTrial (Some license) = true)
    by (rewrite isTrial_Some, Hstatus; reflexivity).
  destruct (fetched_license_refs license st) as (Hf & Har & Hl & Hr & _).
  fold st1 in Hf, Har, Hl, Hr. rewrite Htrial in Hr.
  assert (Hslots : availableSlots st1 = 0)
    by (unfold availableSlots; rewrite Hr, Har; lia).
  split.
  - subst st1. unfold fetchLicenseInfo. rewrite Htrial, Hstatus.
    apply Z.leb_le in Hrem. rewrite Hrem. destruct st; reflexivity.
  - unfold filesSelected, fileDropped. rewrite Hl, Htrial, Hslots. simpl.
    destruct P as [|x P]; [congruence|]. simpl.
    rewrite !audioFiles_setShowUpgradeModal, !audioFiles_alert,
      !showUpgradeModal_set, Hf.
    repeat split.
Qed.

Lemma expired_trial_admits_nothing_witness :
  let st1 :=
    syncRefs (fetchLicenseInfo
                (LicenseOk (License.mk "Trial Expired" "" 10 10 0 false)) oneFile) in
  showTrialExpired st1 = true
  /\ audioFiles (filesSelected ["/m/b.wav"] st1) = audioFiles oneFile
  /\ showUpgradeModal (filesSelected ["/m/b.wav"] st1) = true
  /\ audioFiles (fileDropped "/m/c.wav" st1) = audioFiles oneFile
  /\ showUpgradeModal (fileDropped "/m/c.wav" st1) = true.
Proof.
  apply (expired_trial_admits_nothing oneFile
           (License.mk "Trial Expired" "" 10 10 0 false) ["/m/b.wav"] "/m/c.wav").
  - reflexivity.
  - simpl. lia.
  - discriminate.
Defined.

(** ** The stats counter and the display name *)

Lemma analyzedSongs_le files : (analyzedSongs files <= length files)%nat.
Proof. unfold analyzedSongs. apply List.filter_length_le. Qed.

(** The "Analyzed Songs" counter never exceeds the number of files, reads
    0 right after a start, reads the full number of files once a poll has
    seen the run end, and is not raised by a stop. *)
Theorem analyzed_songs_counter :
  forall (st : App) (reply : ProcessReply) (target : Q) (data : Progress.t),
    (analyzedSongs (audioFiles st) <= length (audioFiles st))%nat
    /\ analyzedSongs (audioFiles (startProcessing reply st)) = 0%nat
    /\ (Progress.isProcessing data = false ->
        analyzedSongs (pollFiles target data (audioFiles st))
        = length (audioFiles st))
    /\ (analyzedSongs (List.map stopRule (audioFiles st))
        <= analyzedSongs (audioFiles st))%nat.
Proof.
  intros st reply target data. split; [apply analyzedSongs_le|]. split; [|split].
  - rewrite audioFiles_startProcessing. unfold analyzedSongs.
    induction (audioFiles st); simpl; auto.
  - intros Hend. unfold pollFiles. rewrite Hend. simpl. unfold analyzedSongs.
    destruct (Progress.processedFiles data);
      induction (audioFiles st); simpl; auto.
  - unfold analyzedSongs. induction (audioFiles st) as [|f l IH]; simpl; [lia|].
    destruct f as [n p s c nl pr]; destruct s; simpl; lia.
Qed.

Lemma analyzed_songs_counter_witness :
  (analyzedSongs (audioFiles running) <= length (audioFiles running))%nat
  /\ analyzedSongs (audioFiles (startProcessing ProcessResponse running)) = 0%nat
  /\ (Progress.isProcessing (Progress.mk false [] [] ∅ []) = false ->
      analyzedSongs (pollFiles (-12) (Progress.mk false [] [] ∅ []) (audioFiles running))
      = length (audioFiles running))
  /\ (analyzedSongs (List.map stopRule (audioFiles running))
      <= analyzedSongs (audioFiles running))%nat.
Proof.
  apply (analyzed_songs_counter running ProcessResponse (-12)%Q
           (Progress.mk false [] [] ∅ [])).
Defined.

(** The display name of an entry is what follows the last slash of its
    path: a path without a slash is its own name, and for a directory
    path followed by a slash and a non-empty, slash-free base name the
    name is that base name. *)
Theorem fileNameOf_is_the_base_name :
  forall dir base : string,
    hasSlash base = false ->
    fileNameOf base = base
    /\ (base <> "" -> fileNameOf (dir ++ String "/" base)%string = base).
Proof.
  intros dir base Hbase. unfold fileNameOf. split.
  - rewrite lastSegment_no_slash by exact Hbase.
    change (EmptyString ++ base)%string with base.
    destruct (String.eqb base ""); reflexivity.
  - intros Hne. rewrite lastSegment_after_slash, lastSegment_no_slash by exact Hbase.
    change (EmptyString ++ base)%string with base.
    apply String.eqb_neq in Hne. now rewrite Hne.
Qed.

Lemma fileNameOf_is_the_base_name_witness :
  fileNameOf "b.wav" = "b.wav"
  /\ ("b.wav" <> "" -> fileNameOf ("/music/live" ++ String "/" "b.wav")%string = "b.wav").
Proof.
  apply (fileNameOf_is_the_base_name "/music/live" "b.wav"). reflexivity.
Defined.

(** ** Activation and deactivation, continued *)

Lemma rejectionMessage_nonempty serverError :
  Activation.rejectionMessage serverError <> "".
Proof.
  unfold Activation.rejectionMessage. destruct serverError as [m|]; [|discriminate].
  destruct (String.eqb m "") eqn:E; [discriminate|]. now apply String.eqb_neq.
Qed.

Lemma canAttempt_after_deadline now st :
  Activation.lockoutUntil st <= now ->
  fst (Activation.canAttemptActivation now st) = true
  /\ Activation.licenseKey (snd (Activation.canAttemptActivation now st))
     = Activation.licenseKey st
  /\ Activation.activationError (snd (Activation.canAttemptActivation now st))
     = Activation.activationError st.
Proof.
  intros H. unfold Activation.canAttemptActivation.
  destruct (now <? Activation.lockoutUntil st) eqn:E; [apply Z.ltb_lt in E; lia|].
  destruct ((Activation.lockoutUntil st <=? now)
            && (3 <=? Activation.activationAttempts st));
    destruct st; repeat split.
Qed.

(** While the lockout deadline lies ahead, [activateLicense] on a
    well-formed key sends no request: counter, deadline, key and busy flag
    stay as they are, and the message names the countdown. *)
Theorem locked_activation_sends_nothing :
  forall (now later : Z) (reply : Activation.Reply) (st : Activation.t),
    trim (Activation.licenseKey st) <> "" ->
    isValidLicenseKeyFormat (Activation.licenseKey st) = true ->
    now < Activation.lockoutUntil st ->
    let (st', effects) := Activation.activateLicense now later reply st in
    effects = []
    /\ Activation.activationAttempts st' = Activation.activationAttempts st
    /\ Activation.lockoutUntil st' = Activation.lockoutUntil st
    /\ Activation.licenseKey st' = Activation.licenseKey st
    /\ Activation.isActivating st' = Activation.isActivating st
    /\ Activation.activationError st'
       = ("Too many attempts. Please wait "
          ++ pretty (Activation.lockoutCountdown st)
          ++ " seconds before trying again")%string.
Proof.
  intros now later reply st Hblank Hfmt Hlock.
  unfold Activation.activateLicense.
  apply String.eqb_neq in Hblank. rewrite Hblank, Hfmt. simpl.
  rewrite ActivationFacts.canAttempt_locked by (destruct st; exact Hlock).
  simpl. destruct st; repeat split.
Qed.

Lemma locked_activation_sends_nothing_witness :
  let st := Activation.mk "RAFILIS-AAAAAAAAAAAA" false "" 3000 3 63100 42 in
  let (st', effects) :=
    Activation.activateLicense 21000 21100 (Activation.Response true None) st in
  effects = []
  /\ Activation.activationAttempts st' = Activation.activationAttempts st
  /\ Activation.lockoutUntil st' = Activation.lockoutUntil st
  /\ Activation.licenseKey st' = Activation.licenseKey st
  /\ Activation.isActivating st' = Activation.isActivating st
  /\ Activation.activationError st'
     = ("Too many attempts. Please wait "
        ++ pretty (Activation.lockoutCountdown st)
        ++ " seconds before trying again")%string.
Proof.
  apply (locked_activation_sends_nothing 21000 21100 (Activation.Response true None)
           (Activation.mk "RAFILIS-AAAAAAAAAAAA" false "" 3000 3 63100 42)).
  - vm_compute. discriminate.
  - reflexivity.
  - reflexivity.
Defined.

(** An attempt that gets past the local checks (key not blank, well
    formed, no deadline ahead) sends exactly one request, carrying the
    trimmed key, and ends with the busy flag lowered.  On success the
    counter and the deadline are 0, the key field is emptied and the
    license is refreshed; the form shows an error exactly when the reply
    was not a success. *)
Theorem sent_activation_outcome :
  forall (now later : Z) (reply : Activation.Reply) (st : Activation.t),
    trim (Activation.licenseKey st) <> "" ->
    isValidLicenseKeyFormat (Activation.licenseKey st) = true ->
    Activation.lockoutUntil st <= now ->
    let (st', effects) := Activation.activateLicense now later reply st in
    head effects = Some (Activation.PostActivate (trim (Activation.licenseKey st)))
    /\ Activation.isActivating st' = false
    /\ Activation.lastActivationAttempt st' = now
    /\ (Activation.activationError st' = "" <-> Activation.isFailure reply = false)
    /\ (Activation.isFailure reply = false ->
        Activation.activationAttempts st' = 0
        /\ Activation.lockoutUntil st' = 0
        /\ Activation.licenseKey st' = ""
        /\ effects = [Activation.PostActivate (trim (Activation.licenseKey st));
                      Activation.AlertActivated; Activation.RefreshLicenseInfo;
                      Activation.CloseModals]).
Proof.
  intros now later reply st Hblank Hfmt Hlock.
  unfold Activation.activateLicense.
  apply String.eqb_neq in Hblank. rewrite Hblank, Hfmt. simpl.
  destruct (canAttempt_after_deadline now (Activation.setActivationError "" st))
    as (Hok & _); [destruct st; exact Hlock|].
  destruct (Activation.canAttemptActivation now (Activation.setActivationError "" st))
    as [ok st1]. simpl in Hok. subst ok. simpl.
  destruct reply as [[|] msg|e]; simpl.
  - destruct st1; simpl. repeat split; auto.
  - unfold Activation.recordFailure.
    destruct (3 <=? Activation.activationAttempts st + 1); destruct st1; simpl;
      (split; [reflexivity|]); (split; [reflexivity|]); (split; [reflexivity|]);
      (split; [|discriminate]); (split; [|discriminate]); intros Habs;
      try discriminate; exfalso; exact (rejectionMessage_nonempty msg Habs).
  - unfold Activation.recordFailure.
    destruct (3 <=? Activation.activationAttempts st + 1); destruct st1; simpl;
      (split; [reflexivity|]); (split; [reflexivity|]); (split; [reflexivity|]);
      (split; [|discriminate]); (split; [|discriminate]); intros Habs;
      try discriminate; destruct e; discriminate.
Qed.

Lemma sent_activation_outcome_witness :
  let st := Activation.mk "RAFILIS-AAAAAAAAAAAA  " false "old" 0 2 0 0 in
  let (st', effects) :=
    Activation.activateLicense 5000 5200 (Activation.Response true None) st in
  head effects = Some (Activation.PostActivate (trim (Activation.licenseKey st)))
  /\ Activation.isActivating st' = false
  /\ Activation.lastActivationAttempt st' = 5000
  /\ (Activation.activationError st' = ""
      <-> Activation.isFailure (Activation.Response true None) = false)
  /\ (Activation.isFailure (Activation.Response true None) = false ->
      Activation.activationAttempts st' = 0
      /\ Activation.lockoutUntil st' = 0
      /\ Activation.licenseKey st' = ""
      /\ effects = [Activation.PostActivate (trim (Activation.licenseKey st));
                    Activation.AlertActivated; Activation.RefreshLicenseInfo;
                    Activation.CloseModals]).
Proof.
  apply (sent_activation_outcome 5000 5200 (Activation.Response true None)
           (Activation.mk "RAFILIS-AAAAAAAAAAAA  " false "old" 0 2 0 0)).
  - vm_compute. discriminate.
  - reflexivity.
  - simpl. lia.
Defined.

Lemma leading_space_fails_format c rest :
  isSpace c = true -> isValidLicenseKeyFormat (String c rest) = false.
Proof.
  intros Hc. unfold isValidLicenseKeyFormat.
  destruct (String.prefix "RAFILIS-" (String c rest)) eqn:E; [|reflexivity].
  apply prefix_iff in E as [r Hr]. rewrite append_cons in Hr.
  injection Hr as -> _. discriminate.
Qed.

(** The format check reads the key as typed while the blank check and the
    request use the trimmed key: a key that begins with a white-space
    character is turned down locally, with no request and no change to
    counter or deadline, even when the key behind the white space is well
    formed. *)
Theorem key_with_leading_space_is_rejected :
  forall (c : ascii) (rest : string) (now later : Z)
         (reply : Activation.Reply) (st : Activation.t),
    isSpace c = true ->
    Activation.licenseKey st = String c rest ->
    let (st', effects) := Activation.activateLicense now later reply st in
    effects = []
    /\ Activation.activationAttempts st' = Activation.activationAttempts st
    /\ Activation.lockoutUntil st' = Activation.lockoutUntil st
    /\ (Activation.activationError st' = "Please enter a license key"
        \/ Activation.activationError st' = "Please enter a valid license key.").
Proof.
  intros c rest now later reply st Hc Hkey.
  unfold Activation.activateLicense. rewrite Hkey.
  rewrite (leading_space_fails_format c rest Hc). simpl.
  destruct (String.eqb (trim (String c rest)) ""); destruct st; simpl; auto.
Qed.

Lemma key_with_leading_space_is_rejected_witness :
  let st := Activation.mk " RAFILIS-AAAAAAAAAAAA" false "" 0 0 0 0 in
  let (st', effects) :=
    Activation.activateLicense 5000 5200 (Activation.Response true None) st in
  effects = []
  /\ Activation.activationAttempts st' = Activation.activationAttempts st
  /\ Activation.lockoutUntil st' = Activation.lockoutUntil st
  /\ (Activation.activationError st' = "Please enter a license key"
      \/ Activation.activationError st' = "Please enter a valid license key.").
Proof.
  apply (key_with_leading_space_is_rejected " " "RAFILIS-AAAAAAAAAAAA" 5000 5200
           (Activation.Response true None)
           (Activation.mk " RAFILIS-AAAAAAAAAAAA" false "" 0 0 0 0));
    reflexivity.
Defined.

(** The lockout countdown, for a deadline that is set: before the deadline
    the tick shows the remaining time in whole seconds, rounded up, and
    [canAttemptActivation] answers false; from the deadline on the tick
    shows 0 and clears counter, deadline and message, and
    [canAttemptActivation] answers true. *)
Theorem countdown_follows_the_deadline :
  forall (now : Z) (st : Activation.t),
    0 < Activation.lockoutUntil st ->
    let st' := Activation.countdownTick now st in
    let c := Activation.lockoutCountdown st' in
    (now < Activation.lockoutUntil st ->
     1000 * (c - 1) < Activation.lockoutUntil st - now <= 1000 * c
     /\ fst (Activation.canAttemptActivation now st) = false)
    /\ (Activation.lockoutUntil st <= now ->
        c = 0
        /\ Activation.activationAttempts st' = 0
        /\ Activation.lockoutUntil st' = 0
        /\ Activation.activationError st' = ""
        /\ fst (Activation.canAttemptActivation now st) = true).
Proof.
  intros now st Hset st' c. subst c st'. unfold Activation.countdownTick.
  apply Z.ltb_lt in Hset. rewrite Hset. apply Z.ltb_lt in Hset.
  set (d := Activation.lockoutUntil st - now).
  pose proof (Z.div_mod (- d) 1000 ltac:(lia)) as Hdm.
  pose proof (Z.mod_pos_bound (- d) 1000 ltac:(lia)) as Hmod.
  split.
  - intros Hbefore.
    assert (Hpos : 0 < - (- d / 1000)) by (subst d; lia).
    destruct (Z.max 0 (- (- d / 1000)) =? 0) eqn:E; [apply Z.eqb_eq in E; lia|].
    split.
    + replace (Activation.lockoutCountdown
                 (Activation.setLockoutCountdown (Z.max 0 (- (- d / 1000))) st))
        with (Z.max 0 (- (- d / 1000))) by (destruct st; reflexivity).
      lia.
    + rewrite ActivationFacts.canAttempt_locked by exact Hbefore. reflexivity.
  - intros Hafter.
    assert (Hz : Z.max 0 (- (- d / 1000)) = 0) by (subst d; lia).
    rewrite Hz. simpl.
    split; [destruct st; reflexivity|]. split; [destruct st; reflexivity|].
    split; [destruct st; reflexivity|]. split; [destruct st; reflexivity|].
    apply canAttempt_after_deadline. exact Hafter.
Qed.

Lemma countdown_follows_the_deadline_witness :
  let st := Activation.mk "" false "" 3000 3 63100 60 in
  let st' := Activation.countdownTick 21000 st in
  let c := Activation.lockoutCountdown st' in
  (21000 < Activation.lockoutUntil st ->
   1000 * (c - 1) < Activation.lockoutUntil st - 21000 <= 1000 * c
   /\ fst (Activation.canAttemptActivation 21000 st) = false)
  /\ (Activation.lockoutUntil st <= 21000 ->
      c = 0
      /\ Activation.activationAttempts st' = 0
      /\ Activation.lockoutUntil st' = 0
      /\ Activation.activationError st' = ""
      /\ fst (Activation.canAttemptActivation 21000 st) = true).
Proof.
  apply (countdown_follows_the_deadline 21000
           (Activation.mk "" false "" 3000 3 63100 60)).
  reflexivity.
Defined.

Lemma deactivation_rejectionMessage_nonempty serverError :
  Deactivation.rejectionMessage serverError <> "".
Proof.
  unfold Deactivation.rejectionMessage. destruct serverError as [m|]; [|discriminate].
  destruct (String.eqb m "") eqn:E; [discriminate|]. now apply String.eqb_neq.
Qed.

(** [deactivateLicense] stays clear of the lockout: however the request
    settles, exactly one request is sent first, the attempt counter, the
    deadline and the key field are untouched and the busy flag ends
    lowered; the license is refreshed and the modal closed exactly on
    success, and an error message is left exactly otherwise. *)
Theorem deactivation_never_counts_as_an_attempt :
  forall (reply : Activation.Reply) (st : Activation.t),
    let (st', effects) := Deactivation.deactivateLicense reply st in
    head effects = Some Deactivation.PostDeactivate
    /\ length (List.filter Deactivation.isPost effects) = 1%nat
    /\ Activation.activationAttempts st' = Activation.activationAttempts st
    /\ Activation.lockoutUntil st' = Activation.lockoutUntil st
    /\ Activation.licenseKey st' = Activation.licenseKey st
    /\ Activation.isActivating st' = false
    /\ (Activation.activationError st' = "" <-> Activation.isFailure reply = false)
    /\ (In Deactivation.RefreshLicenseInfo effects
        <-> Activation.isFailure reply = false).
Proof.
  intros reply st. unfold Deactivation.deactivateLicense.
  destruct reply as [[|] msg|e]; destruct st; simpl.
  - repeat split; auto.
  - repeat split; try discriminate.
    + intros Habs. exfalso.
      exact (deactivation_rejectionMessage_nonempty msg Habs).
    + intros [Habs|[]]. discriminate.
  - repeat split; try discriminate.
    + intros Habs. destruct e; discriminate.
    + intros [Habs|[]]. discriminate.
Qed.

(** * The waveform seed *)

Lemma toInt32_range z : - 2 ^ 31 <= toInt32 z < 2 ^ 31.
Proof.
  unfold toInt32. pose proof (Z.mod_pos_bound z (2 ^ 32) ltac:(lia)) as H.
  destruct (z mod 2 ^ 32 <? 2 ^ 31) eqn:E;
    [apply Z.ltb_lt in E|apply Z.ltb_ge in E]; lia.
Qed.

Lemma toInt32_congr a b :
  a mod 2 ^ 32 = b mod 2 ^ 32 -> toInt32 a = toInt32 b.
Proof. intros H. unfold toInt32. now rewrite H. Qed.

Lemma toInt32_mod z : toInt32 z mod 2 ^ 32 = z mod 2 ^ 32.
Proof.
  unfold toInt32. destruct (z mod 2 ^ 32 <? 2 ^ 31).
  - apply Z.mod_mod. lia.
  - rewrite <- (Z.mod_mod z (2 ^ 32)) at 2 by lia.
    replace (z mod 2 ^ 32 - 2 ^ 32) with (z mod 2 ^ 32 + (-1) * 2 ^ 32) by lia.
    apply Z.mod_add. lia.
Qed.

Lemma toInt32_small z : - 2 ^ 31 <= z < 2 ^ 31 -> toInt32 z = z.
Proof.
  intros H. unfold toInt32.
  destruct (Z_lt_le_dec z 0) as [Hneg|Hpos].
  - replace (z mod 2 ^ 32) with (z + 2 ^ 32).
    + destruct (z + 2 ^ 32 <? 2 ^ 31) eqn:E; [apply Z.ltb_lt in E; lia|lia].
    + apply Z.mod_unique with (q := -1); lia.
  - rewrite Z.mod_small by lia.
    destruct (z <? 2 ^ 31) eqn:E; [reflexivity|apply Z.ltb_ge in E; lia].
Qed.

Lemma hashStep_spec a b :
  hashStep a b = toInt32 (31 * a + Z.of_nat (nat_of_ascii b)).
Proof.
  unfold hashStep. rewrite Z.land_diag. apply toInt32_congr.
  rewrite Z.shiftl_mul_pow2 by lia.
  set (c := Z.of_nat (nat_of_ascii b)).
  replace (toInt32 (toInt32 a * 2 ^ 5) - a + c)
    with (toInt32 (toInt32 a * 2 ^ 5) + (c - a)) by lia.
  rewrite Z.add_mod, toInt32_mod by lia.
  rewrite Z.mul_mod, toInt32_mod by lia.
  rewrite <- Z.mul_mod, <- Z.add_mod by lia.
  f_equal. lia.
Qed.

Lemma polynomial_congr chars : forall x y,
  x mod 2 ^ 32 = y mod 2 ^ 32 ->
  fold_left (fun a b => 31 * a + Z.of_nat (nat_of_ascii b)) chars x mod 2 ^ 32
  = fold_left (fun a b => 31 * a + Z.of_nat (nat_of_ascii b)) chars y mod 2 ^ 32.
Proof.
  induction chars as [|c chars IH]; intros x y H; simpl; [exact H|].
  apply IH.
  rewrite Z.add_mod, Z.mul_mod, H by lia.
  now rewrite <- Z.mul_mod, <- Z.add_mod by lia.
Qed.

Lemma nameHash_chars chars : forall seed,
  - 2 ^ 31 <= seed < 2 ^ 31 ->
  fold_left hashStep chars seed
  = toInt32 (fold_left (fun a b => 31 * a + Z.of_nat (nat_of_ascii b)) chars seed).
Proof.
  induction chars as [|c chars IH]; intros seed Hseed; simpl.
  - symmetry. now apply toInt32_small.
  - rewrite hashStep_spec, IH by apply toInt32_range.
    apply toInt32_congr, polynomial_congr, toInt32_mod.
Qed.

(** The hash of a file name is the polynomial with base 31 over its
    character codes, started from the seed and wrapped to a signed 32-bit
    integer, as the shift, the subtraction and the final [a & a] of the
    reducer add up to; its absolute value is small enough for the first
    product of the generator to be exact. *)
Theorem name_hash_is_the_base_31_polynomial :
  forall (fileName : string) (seed : Z),
    - 2 ^ 31 <= seed < 2 ^ 31 ->
    nameHash fileName seed = toInt32 (hashPolynomial fileName seed)
    /\ - 2 ^ 31 <= nameHash fileName seed < 2 ^ 31
    /\ Z.abs (nameHash fileName seed) * 9301 + 49297 < 2 ^ 53.
Proof.
  intros fileName seed Hseed.
  assert (E : nameHash fileName seed = toInt32 (hashPolynomial fileName seed))
    by now apply nameHash_chars.
  pose proof (toInt32_range (hashPolynomial fileName seed)) as Hr.
  rewrite E. split; [reflexivity|]. split; [exact Hr|]. lia.
Qed.

Lemma name_hash_is_the_base_31_polynomial_witness :
  nameHash "a.mp3" 1 = toInt32 (hashPolynomial "a.mp3" 1)
  /\ - 2 ^ 31 <= nameHash "a.mp3" 1 < 2 ^ 31
  /\ Z.abs (nameHash "a.mp3" 1) * 9301 + 49297 < 2 ^ 53.
Proof.
  apply (name_hash_is_the_base_31_polynomial "a.mp3" 1). lia.
Defined.

Lemma lcgNext_range s : 0 <= s -> 0 <= lcgNext s < 233280.
Proof. intros H. unfold lcgNext. apply Z.rem_bound_pos; lia. Qed.

Lemma randomDraws_unit n : forall s,
  0 <= s ->
  length (randomDraws n s) = n
  /\ Forall (fun q => (0 <= q)%Q /\ (q < 1)%Q) (randomDraws n s).
Proof.
  induction n as [|n IH]; intros s Hs; simpl; [split; [reflexivity|constructor]|].
  pose proof (lcgNext_range s Hs) as Hr.
  destruct (IH (lcgNext s) ltac:(lia)) as [Hlen Hall].
  split; [now rewrite Hlen|]. constructor; [|exact Hall].
  unfold Qle, Qlt; simpl. lia.
Qed.

(** Every preview is built from 120 draws, and every draw lies in [0,1):
    the generator's state stays between 0 and 233279 whatever the file
    name and the seed. *)
Theorem waveform_draws_stay_in_the_unit_interval :
  forall (fileName : string) (seed : Z),
    length (waveformDraws fileName seed) = 120%nat
    /\ Forall (fun q => (0 <= q)%Q /\ (q < 1)%Q) (waveformDraws fileName seed).
Proof.
  intros fileName seed. unfold waveformDraws. apply randomDraws_unit. lia.
Qed.


Example nameHash_sample :
  nameHash "ab" 0 = 3105 /\ nameHash "default" 1 = -1007353056.
Proof. split; vm_compute; reflexivity. Qed.

(** * The development [.env] file *)


Lemma splitOn_without sep s : holds sep s = false -> splitOn sep s = [s].
Proof.
  induction s as [|c s IH]; simpl; [reflexivity|].
  intros H. apply orb_false_iff in H as [Hc Hs].
  rewrite Hc, IH by exact Hs. reflexivity.
Qed.





Lemma trimStart_allSpaces s : allSpaces s = true -> trimStart s = "".
Proof.
  induction s as [|c s IH]; simpl; [reflexivity|].
  intros H. apply andb_true_iff in H as [Hc Hs]. now rewrite Hc, IH.
Qed.

Lemma trim_allSpaces s : allSpaces s = true -> trim s = "".
Proof.
  intros H. unfold trim. rewrite (trimStart_allSpaces s H). reflexivity.
Qed.














(** A line defines nothing when it is blank, begins with [#], holds no
    [=] or begins with [=]. *)
Theorem env_line_without_a_definition :
  forall (line : string) (envVars : gmap string string),
    allSpaces line = true
    \/ String.prefix "#" line = true
    \/ holds "=" line = false
    \/ String.prefix "=" line = true ->
    parseEnvLine line envVars = envVars.
Proof.
  intros line envVars H. unfold parseEnvLine.
  destruct H as [H|[H|[H|H]]].
  - now rewrite (trim_allSpaces line H).
  - rewrite H. now rewrite andb_false_r.
  - rewrite (splitOn_without "=" line H). simpl.
    rewrite andb_false_r. now destruct (_ && _).
  - apply prefix_iff in H as [rest ->].
    change ("=" ++ rest)%string with (String "=" rest).
    simpl. now destruct (_ && _).
Qed.

Lemma env_line_without_a_definition_witness :
  parseEnvLine "# API_URL=1" {[ "HOME" := "/root" ]} = {[ "HOME" := "/root" ]}.
Proof.
  apply (env_line_without_a_definition "# API_URL=1" {[ "HOME" := "/root" ]}).
  right. left. reflexivity.
Defined.





Example parseEnv_sample :
  parseEnv (joinWith lineFeed ["# dev"; "A=1"; ""; "A=2"; "B = 'x=y'"; "novalue";
                               "__proto__=x"; " =y"])
  = {[ "A" := "2"; "B" := " 'x=y'"; "" := "y" ]}
  /\ loadEnv (joinWith lineFeed ["A=2"; " =y"]) {[ "A" := "0"; "HOME" := "/root" ]}
     = {[ "A" := "2"; "HOME" := "/root" ]}.
Proof. split; vm_compute; reflexivity. Qed.

(** * Scanning the selection *)

(** Induction on a tree, with the property at hand for every item of a
    directory. *)
Lemma FsNode_nested_ind (P : FsNode -> Prop) :
  P FsFile ->
  (forall items, Forall (fun it => P (snd it)) items -> P (FsDir items)) ->
  P FsLockedDir -> P FsOther -> P FsBroken ->
  forall node, P node.
Proof.
  intros HFile HDir HLocked HOther HBroken. fix IH 1. intros node.
  destruct node as [|items| | |]; try assumption.
  apply HDir. induction items as [|it items IHitems]; constructor.
  - apply IH.
  - exact IHitems.
Qed.

Section ScanFacts.
Variable extname : string -> string.
Variable joinPath : string -> string -> string.

Lemma scanDirectory_dir dirPath includeSubfolders items : forall found,
  scanDirectory extname joinPath dirPath (FsDir items) includeSubfolders found
  = scanItems extname joinPath dirPath includeSubfolders items found.
Proof.
  induction items as [|[item child] rest IH]; intros found; [reflexivity|].
  simpl. destruct child; try reflexivity; apply IH.
Qed.

Lemma scanItems_broken dirPath includeSubfolders before name after : forall found,
  scanItems extname joinPath dirPath includeSubfolders
    (before ++ (name, FsBroken) :: after) found
  = scanItems extname joinPath dirPath includeSubfolders before found.
Proof.
  induction before as [|[item child] rest IH]; intros found; simpl.
  - reflexivity.
  - destruct child; try reflexivity; apply IH.
Qed.

(** Whatever the scan of a directory adds to the list is an audio file
    listed under that directory. *)
Lemma scanDirectory_keeps (R : string -> Prop) :
  forall node dirPath includeSubfolders found,
    Forall R found ->
    (forall p, listedUnder extname joinPath dirPath node p -> R p) ->
    Forall R (scanDirectory extname joinPath dirPath node includeSubfolders found).
Proof.
  intros node. induction node as [|items IHnode| | |] using FsNode_nested_ind;
    intros dirPath includeSubfolders found Hfound HR; try exact Hfound.
  rewrite scanDirectory_dir.
  assert (Hloop : forall rest found',
             (forall x, In x rest -> In x items) ->
             Forall R found' ->
             Forall R (scanItems extname joinPath dirPath includeSubfolders
                         rest found')).
  { induction rest as [|[item child] rest IHrest]; intros found' Hin Hfound';
      simpl; [exact Hfound'|].
    assert (Hitem : In (item, child) items) by (apply Hin; now left).
    assert (Hrest : forall x, In x rest -> In x items)
      by (intros x Hx; apply Hin; now right).
    destruct child as [|items'| | |].
    - apply IHrest; [exact Hrest|].
      destruct (isAudioExtension (toLowerCase (extname item))) eqn:E;
        [|exact Hfound'].
      apply Forall_app. split; [exact Hfound'|]. constructor; [|constructor].
      apply HR. now apply (listed_here _ _ _ items item).
    - apply IHrest; [exact Hrest|]. destruct includeSubfolders; [|exact Hfound'].
      apply (proj1 (List.Forall_forall _ _) IHnode _ Hitem); [exact Hfound'|].
      intros q Hq. apply HR.
      now apply (listed_below _ _ _ items item (FsDir items') q).
    - apply IHrest; [exact Hrest|]. destruct includeSubfolders; exact Hfound'.
    - apply IHrest; [exact Hrest|]. exact Hfound'.
    - exact Hfound'. }
  apply Hloop; [intros x Hx; exact Hx|exact Hfound].
Qed.

End ScanFacts.

(** When [statSync] throws on an entry, the scan of that directory ends
    there: what was found up to the entry is kept, and the entries listed
    after it are never looked at. *)
Theorem scan_stops_at_a_broken_entry :
  forall (extname : string -> string) (joinPath : string -> string -> string)
         (dirPath name : string) (before after : list (string * FsNode))
         (includeSubfolders : bool) (found : list string),
    scanDirectory extname joinPath dirPath
      (FsDir (before ++ (name, FsBroken) :: after)) includeSubfolders found
    = scanDirectory extname joinPath dirPath (FsDir before) includeSubfolders found.
Proof.
  intros. rewrite !scanDirectory_dir. apply scanItems_broken.
Qed.

(** Whatever is selected, a [files-selected] message from this handler
    is never empty, and each of its paths is a selected file with an
    audio extension (in any letter case), or the path, name joined to
    directory, of a file with an audio extension listed in a selected
    directory or in a directory below one. *)
Theorem scanned_paths_are_audio_files :
  forall (extname : string -> string) (joinPath : string -> string -> string)
         (selection : list (string * FsNode)) (paths : list string),
    requestFilesSelection extname joinPath (DialogPaths selection)
    = SendFilesSelected paths ->
    paths <> [] /\ Forall (audioPath extname joinPath selection) paths.
Proof.
  intros extname joinPath selection paths H.
  assert (Hfold : forall rest found,
             (forall x, In x rest -> In x selection) ->
             Forall (audioPath extname joinPath selection) found ->
             Forall (audioPath extname joinPath selection)
               (fold_left (scanSelected extname joinPath) rest found)).
  { induction rest as [|[p node] rest IH]; intros found Hin Hfound; simpl;
      [exact Hfound|].
    apply IH; [intros x Hx; apply Hin; now right|].
    destruct node as [|items| | |]; try exact Hfound.
    - destruct (isAudioExtension (toLowerCase (extname p))) eqn:E; [|exact Hfound].
      apply Forall_app. split; [exact Hfound|]. constructor; [|constructor].
      left. split; [apply Hin; now left|exact E].
    - apply scanDirectory_keeps; [exact Hfound|].
      intros q Hq. right. exists p, (FsDir items).
      split; [apply Hin; now left|exact Hq]. }
  unfold requestFilesSelection in H.
  destruct selection as [|s selection]; [discriminate|].
  specialize (Hfold (s :: selection) [] (fun x Hx => Hx) (List.Forall_nil _)).
  destruct (fold_left (scanSelected extname joinPath) (s :: selection) [])
    as [|p ps]; [discriminate|].
  injection H as <-. split; [discriminate|exact Hfold].
Qed.

Example scan_sample :
  requestFilesSelection posixExtname posixJoin
    (DialogPaths [("/m", sampleFolder); ("/x/four.aac", FsFile); ("/x/five.ogg", FsFile)])
  = SendFilesSelected ["/m/a-one.MP3"; "/m/live/two.flac"; "/x/four.aac"].
Proof. vm_compute. reflexivity. Qed.

Lemma scanned_paths_are_audio_files_witness :
  ["/m/a-one.MP3"; "/m/live/two.flac"; "/x/four.aac"] <> []
  /\ Forall (audioPath posixExtname posixJoin
               [("/m", sampleFolder); ("/x/four.aac", FsFile); ("/x/five.ogg", FsFile)])
       ["/m/a-one.MP3"; "/m/live/two.flac"; "/x/four.aac"].
Proof.
  apply (scanned_paths_are_audio_files posixExtname posixJoin
           [("/m", sampleFolder); ("/x/four.aac", FsFile); ("/x/five.ogg", FsFile)]
           ["/m/a-one.MP3"; "/m/live/two.flac"; "/x/four.aac"]).
  vm_compute. reflexivity.
Defined.

Lemma fold_scanSelected_files extname joinPath selection : forall found,
  Forall (fun selected => snd selected = FsFile) selection ->
  fold_left (scanSelected extname joinPath) selection found
  = found ++ List.filter (fun p => isAudioExtension (toLowerCase (extname p)))
               (List.map fst selection).
Proof.
  induction selection as [|[p node] rest IH]; intros found Hall; simpl.
  - now rewrite app_nil_r.
  - apply Forall_cons in Hall as [Hnode Hrest]. simpl in Hnode. subst node.
    rewrite IH by exact Hrest.
    destruct (isAudioExtension (toLowerCase (extname p))); [|reflexivity].
    now rewrite <- app_assoc.
Qed.

(** When only files are selected, the handler forwards exactly those
    whose extension is an audio extension in any letter case, in the
    order of the selection and with repetitions kept; when none is, it
    shows the "No Audio Files Found" box and sends nothing. *)
Theorem selected_files_are_filtered_by_extension :
  forall (extname : string -> string) (joinPath : string -> string -> string)
         (selection : list (string * FsNode)),
    selection <> [] ->
    Forall (fun selected => snd selected = FsFile) selection ->
    requestFilesSelection extname joinPath (DialogPaths selection)
    = match List.filter (fun p => isAudioExtension (toLowerCase (extname p)))
              (List.map fst selection) with
      | [] => ShowNoAudioFilesFound
      | allAudioFiles => SendFilesSelected allAudioFiles
      end.
Proof.
  intros extname joinPath selection Hne Hall. unfold requestFilesSelection.
  destruct selection as [|s selection]; [congruence|].
  rewrite fold_scanSelected_files by exact Hall. reflexivity.
Qed.

Lemma selected_files_are_filtered_by_extension_witness :
  requestFilesSelection posixExtname posixJoin
    (DialogPaths [("/x/a.WAV", FsFile); ("/x/b.txt", FsFile); ("/x/a.WAV", FsFile)])
  = match List.filter (fun p => isAudioExtension (toLowerCase (posixExtname p)))
            (List.map fst [("/x/a.WAV", FsFile); ("/x/b.txt", FsFile); ("/x/a.WAV", FsFile)]) with
    | [] => ShowNoAudioFilesFound
    | allAudioFiles => SendFilesSelected allAudioFiles
    end.
Proof.
  apply (selected_files_are_filtered_by_extension posixExtname posixJoin
           [("/x/a.WAV", FsFile); ("/x/b.txt", FsFile); ("/x/a.WAV", FsFile)]).
  - discriminate.
  - repeat constructor.
Defined.

(** * The custom target input *)



Example custom_input_sample :
  targetLUFS (fold_left (fun s value => handleCustomLUFSChange sampleParseFloat value s)
                ["-14.5"; "5"; "abc"; "-80"] running)
  = (-145 # 10)%Q.
Proof. reflexivity. Qed.
